(** * stackstac.rio_reader: a shallow embedding of [AutoParallelRioReader]

    The module [stackstac/rio_reader.py] wraps a rasterio dataset behind
    a uniform [read(window)] interface.  This development embeds the
    reader, its three delegates and the post-read normalisation as Rocq
    functions over an explicit system state, and proves the properties
    listed in the specification about them.

    Modelling conventions.
    - Python exceptions are results: every fallible operation returns
      [Ok v] or [Raise e] together with the state it leaves behind.
    - Everything rasterio / GDAL does (opening a URL, building a
      [WarpedVRT], decoding a window) is answered by a [World] oracle
      indexed by a clock that ticks on every native call, so the same
      call may succeed at one moment and fail at another.
    - Observable effects ([warnings.warn], lock acquisition, GDAL
      environment scopes, native calls) are appended to a trace; the
      [time(...)] blocks only log durations and are left out.
    - Every call names the thread that makes it, and calls of different
      threads are interleaved as whole calls; a lock is its acquire and
      release events.
    - numpy arrays are a shape, a dtype and a row-major list of
      elements, each element carrying its mask bit.  What numpy computes
      on the elements is taken from the [PyNumber] class: the in-place
      operators and [np.ma.filled] work in the dtype of the array and
      raise when an operand cannot be cast to it.
    - Reference counts are not tracked.  The reader is taken to be the
      only holder of its delegate and of the handles in it, so that
      [close], which drops them, runs their [__del__] at once, as
      CPython does; an object a propagating exception still refers to
      outlives the call.
    - f-strings are kept as the list of their literal and interpolated
      fields; how [str] and [repr] render a field is Python's business. *)

From Stdlib Require Import ZArith List String Bool Arith Lia.
Import ListNotations.
Open Scope string_scope.
Open Scope list_scope.

Set Implicit Arguments.
Set Warnings "-register-all".

(** ** Values shared by every component *)

(** [rasterio.windows.Window] *)
Record Window : Type := {
  col_off : Z;
  row_off : Z;
  width : nat;
  height : nat
}.

(** [np.dtype], by name.  [np.issubdtype] on two concrete dtypes holds
    exactly when they are the same dtype. *)
Definition np_dtype : Type := string.

Definition issubdtype (a b : np_dtype) : bool := String.eqb a b.

(** The fields of an f-string. *)
Inductive Frag (E : Type) : Type :=
| Lit (s : string)
| ReprStr (s : string)            (* [{s!r}] of a [str] *)
| ReprExc (e : E)                 (* [{e!r}] of an exception *)
| StrWindow (w : Window)          (* [{window}] *)
| StrInt (n : nat)                (* [{n}] of an [int] *)
| StrShape (sh : list nat)        (* [{result.shape}] *)
| ReprDtype (d : np_dtype).          (* [{dtype!r}] *)

Arguments Lit {E} s.
Arguments ReprStr {E} s.
Arguments ReprExc {E} e.
Arguments StrWindow {E} w.
Arguments StrInt {E} n.
Arguments StrShape {E} sh.
Arguments ReprDtype {E} d.

(** Exceptions: those raised by rasterio, GDAL or the Python runtime are
    [Foreign]; the reader itself raises [RuntimeError] (possibly
    [from] a cause) and [AssertionError]. *)
Inductive Exception : Type :=
| Foreign (ty : string) (text : string)
| RuntimeError (msg : list (Frag Exception)) (cause : option Exception)
| AssertionError (msg : list (Frag Exception)).

Definition Message : Type := list (Frag Exception).

Inductive Result (A : Type) : Type :=
| Ok (a : A)
| Raise (e : Exception).

Arguments Ok {A} a.
Arguments Raise {A} e.

(** ** Python numbers and numpy's arithmetic

    Scalars ([Union[int, float]]) and array elements are values of one
    type [num].  numpy's in-place operators work in the dtype of the
    array they update: they raise when the operand cannot be cast to
    that dtype and otherwise map every element to a value of the dtype
    (an integer dtype wraps around, a floating-point dtype rounds). *)
Class PyNumber (num : Type) : Type := {
  num_zero : num;
  num_one : num;
  num_eqb : num -> num -> bool;      (* Python [==] *)
  (* [a *= k] on an array of dtype [dt]: the error numpy raises for
     this dtype and operand, or what becomes of an element *)
  num_imul : np_dtype -> num -> Result (num -> num);
  (* [a += k], likewise *)
  num_iadd : np_dtype -> num -> Result (num -> num);
  (* the fill value as [np.ma.filled] casts it to the dtype [dt] *)
  num_fill : np_dtype -> num -> Result num
}.

(** *** Python ints over arrays of a signed integer dtype

    In-place arithmetic on such an array with a Python int that fits
    [int64] wraps around in the dtype of the array: the result is cast
    back to it under the [same_kind] rule.  An operand that does not fit
    [int64] is refused, and [np.ma.filled] refuses a fill value that
    does not fit the dtype. *)
Definition signed_bits (dt : np_dtype) : option Z :=
  if String.eqb dt "int8" then Some 8%Z
  else if String.eqb dt "int16" then Some 16%Z
  else if String.eqb dt "int32" then Some 32%Z
  else if String.eqb dt "int64" then Some 64%Z
  else None.

(** The low [bits] bits of [z], read as a two's complement number. *)
Definition wrap (bits z : Z) : Z :=
  ((z + 2 ^ (bits - 1)) mod 2 ^ bits - 2 ^ (bits - 1))%Z.

Definition fits (bits z : Z) : bool :=
  ((- 2 ^ (bits - 1) <=? z) && (z <? 2 ^ (bits - 1)))%Z.

Definition not_understood : Exception :=
  Foreign "TypeError" "data type not understood".

Definition cannot_cast : Exception :=
  Foreign "UFuncTypeError" "Cannot cast ufunc output with casting rule 'same_kind'".

Definition cannot_convert_fill_value : Exception :=
  Foreign "TypeError" "Cannot convert fill_value to dtype".

Definition int_inplace (op : Z -> Z -> Z) (dt : np_dtype) (k : Z) : Result (Z -> Z) :=
  match signed_bits dt with
  | Some bits => if fits 64 k then Ok (fun v => wrap bits (op v k)) else Raise cannot_cast
  | None => Raise not_understood
  end.

Definition int_fill (dt : np_dtype) (f : Z) : Result Z :=
  match signed_bits dt with
  | Some bits => if fits bits f then Ok f else Raise cannot_convert_fill_value
  | None => Raise not_understood
  end.

(** The instance for rasters of a signed integer dtype, with Python
    ints as scale, offset and fill value.  It knows no other dtype: an
    array of another dtype does not hold Python ints, and for its name
    the operations raise. *)
#[export] Instance Z_PyNumber : PyNumber Z := {|
  num_zero := 0%Z;
  num_one := 1%Z;
  num_eqb := Z.eqb;
  num_imul := int_inplace Z.mul;
  num_iadd := int_inplace Z.add;
  num_fill := int_fill
|}.

(** Modelled from the spec: [exception_matches] lives in
    [stackstac/nodata_reader.py], which is not part of the sources at
    hand.  The spec leaves the matching rule of one pattern open ("an
    injectable predicate"), so a pattern is a predicate on exceptions and
    an exception is recognised when some pattern of the tuple accepts
    it. *)
Definition exception_matches (e : Exception) (patterns : list (Exception -> bool)) : bool :=
  existsb (fun pattern => pattern e) patterns.

(** [LayeredEnv] of [stackstac/rio_env.py]: four layers of GDAL options. *)
Record LayeredEnv : Type := {
  env_always : list (string * string);
  env_open : list (string * string);
  env_open_vrt : list (string * string);
  env_read : list (string * string)
}.

Definition DEFAULT_GDAL_ENV : LayeredEnv := {|
  env_always := [("GDAL_HTTP_MULTIRANGE", "YES");
                 ("GDAL_HTTP_MERGE_CONSECUTIVE_RANGES", "YES")];
  env_open := [("GDAL_DISABLE_READDIR_ON_OPEN", "EMPTY_DIR");
               ("VSI_CACHE", "True")];
  env_open_vrt := [];
  env_read := [("VSI_CACHE", "False")]
|}.

Definition MULTITHREADED_DRIVER_ALLOWLIST : list string := ["GTiff"].

Definition in_allowlist (driver : string) : bool :=
  existsb (String.eqb driver) MULTITHREADED_DRIVER_ALLOWLIST.

Section Model.

Context {num : Type} {PN : PyNumber num}.

(** ** numpy arrays *)

(** A (masked) array: [elems] is row-major, each element paired with its
    mask bit ([true] = masked).  A plain [ndarray] is one whose mask bits
    are all [false]. *)
Record ndarray : Type := {
  shape : list nat;
  arr_dtype : np_dtype;
  elems : list (num * bool)
}.

Definition ndim (a : ndarray) : nat := List.length (shape a).

Definition size_of (sh : list nat) : nat := fold_right Nat.mul 1 sh.

(** [a[i]] along the first axis, for [i] in range. *)
Definition index (a : ndarray) (i : nat) : ndarray :=
  let sub := tl (shape a) in
  {| shape := sub;
     arr_dtype := arr_dtype a;
     elems := firstn (size_of sub) (skipn (i * size_of sub) (elems a)) |}.

(** [a == 0] on a masked array, as the boolean data numpy computes: an
    element that is itself masked compares unequal to a plain scalar. *)
Definition eq_zero (a : ndarray) : list bool :=
  map (fun '(v, m) => if (m : bool) then false else num_eqb v num_zero) (elems a).

(** [np.ma.masked_array(a, mask=m)]: [keep_mask] defaults to true, so the
    new mask is or-ed onto the one [a] already carries. *)
Definition masked_array (a : ndarray) (m : list bool) : ndarray :=
  {| shape := shape a;
     arr_dtype := arr_dtype a;
     elems := map (fun '((v, m0), m1) => (v, orb m1 m0)) (combine (elems a) m) |}.

(** [a *= k] and [a += k]: numpy leaves masked elements untouched, and
    raises before it touches any element when [k] cannot be cast. *)
Definition inplace (op : np_dtype -> num -> Result (num -> num)) (a : ndarray) (k : num)
    : Result ndarray :=
  match op (arr_dtype a) k with
  | Ok f =>
      Ok {| shape := shape a;
            arr_dtype := arr_dtype a;
            elems := map (fun '(v, m) => if (m : bool) then (v, m) else (f v, m)) (elems a) |}
  | Raise e => Raise e
  end.

Definition imul (a : ndarray) (k : num) : Result ndarray := inplace num_imul a k.

Definition iadd (a : ndarray) (k : num) : Result ndarray := inplace num_iadd a k.

(** [np.ma.filled(a, fill_value=f)]: the fill value is cast to the
    dtype of [a] first, which may raise. *)
Definition filled (a : ndarray) (f : num) : Result ndarray :=
  match num_fill (arr_dtype a) f with
  | Ok f' =>
      Ok {| shape := shape a;
            arr_dtype := arr_dtype a;
            elems := map (fun '(v, m) => (if (m : bool) then f' else v, false)) (elems a) |}
  | Raise e => Raise e
  end.

(** [np.full(sh, f, dt)] *)
Definition full (sh : list nat) (f : num) (dt : np_dtype) : ndarray :=
  {| shape := sh; arr_dtype := dt; elems := repeat (f, false) (size_of sh) |}.

(** Modelled from the spec: [nodata_for_window] lives in
    [stackstac/nodata_reader.py].  The spec: "a fill-value-constant buffer
    shaped to the window", "with the configured numeric type". *)
Definition nodata_for_window (window : Window) (fill_value : num) (dt : np_dtype) : ndarray :=
  full [height window; width window] fill_value dt.

(** ** Geometry and the native objects *)

(** [affine.Affine]: its coefficients. *)
Definition Affine : Type := list num.

Fixpoint affine_eqb (a b : Affine) : bool :=
  match a, b with
  | [], [] => true
  | x :: a', y :: b' => num_eqb x y && affine_eqb a' b'
  | _, _ => false
  end.

(** A [rasterio.crs.CRS] object, by its textual form. *)
Definition CRS : Type := string.

(** [rasterio.enums.Resampling] *)
Definition Resampling : Type := nat.

(** The dictionary [{"crs": ..., "transform": ..., "height": ...,
    "width": ...}] that [RasterSpec.vrt_params] returns and that [_open]
    rebuilds from the opened dataset; [to_epsg()] may return [None]. *)
Record VrtParams : Type := {
  vp_crs : option Z;
  vp_transform : Affine;
  vp_height : nat;
  vp_width : nat
}.

Definition option_Z_eqb (a b : option Z) : bool :=
  match a, b with
  | Some x, Some y => Z.eqb x y
  | None, None => true
  | _, _ => false
  end.

(** [d1 == d2] on two such dictionaries. *)
Definition vrt_params_eqb (a b : VrtParams) : bool :=
  option_Z_eqb (vp_crs a) (vp_crs b)
  && affine_eqb (vp_transform a) (vp_transform b)
  && Nat.eqb (vp_height a) (vp_height b)
  && Nat.eqb (vp_width a) (vp_width b).

(** [RasterSpec] of [stackstac/raster_spec.py]; the reader only consults
    its [vrt_params]. *)
Record RasterSpec : Type := {
  vrt_params : VrtParams
}.

(** What an open rasterio dataset answers when the reader inspects it.
    The three geometry queries that run Python or PROJ code may raise. *)
Record DatasetInfo : Type := {
  ds_name : string;
  ds_driver : string;
  ds_options : list (string * string);
  ds_count : nat;
  ds_nodata : option num;
  ds_scale0 : num;                          (* [ds.scales[0]] *)
  ds_offset0 : num;                         (* [ds.offsets[0]] *)
  ds_gcps : list (num * num * num * num);   (* [ds.gcps[0]] *)
  ds_gcps_crs : CRS;                        (* [ds.gcps[1]] *)
  ds_gcps_epsg : Result (option Z);         (* [ds.gcps[1].to_epsg()] *)
  ds_from_gcps : Result Affine;             (* [transform.from_gcps(ds.gcps[0])] *)
  ds_crs_epsg : Result (option Z);          (* [ds.crs.to_epsg()] *)
  ds_transform : Affine;
  ds_height : nat;
  ds_width : nat
}.

(** Keyword arguments of [WarpedVRT(ds, sharing=False, ...)]; a keyword
    that is not passed is [None]. *)
Record VrtKwargs : Type := {
  kw_crs : option Z + string;
  kw_transform : Affine;
  kw_height : nat;
  kw_width : nat;
  kw_resampling : Resampling;
  kw_add_alpha : bool;
  kw_src_crs : option CRS;
  kw_src_transform : option Affine;
  kw_src_nodata : option (option num);
  kw_nodata : option (option num);
  kw_tolerance : option num;
  kw_dtype : option (option np_dtype);
  kw_warp_extras : option (list (string * string))
}.

(** The attributes of a [WarpedVRT] that [ThreadLocalRioDataset] copies. *)
Record VrtInfo : Type := {
  vi_crs_string : string;                   (* [vrt.crs.to_string()] *)
  vi_resampling : Resampling;
  vi_tolerance : num;
  vi_src_nodata : option num;
  vi_nodata : option num;
  vi_width : nat;
  vi_height : nat;
  vi_src_transform : option Affine;
  vi_transform : Affine;
  vi_working_dtype : option np_dtype;
  vi_warp_extras : list (string * string)
}.

(** An open [SelfCleaningDatasetReader] and an open [WarpedVRT]. *)
Record Dataset : Type := {
  ds_id : nat;
  ds_info : DatasetInfo
}.

Record Vrt : Type := {
  vrt_id : nat;
  vrt_src : Dataset;
  vrt_kwargs : VrtKwargs;
  vrt_info : VrtInfo
}.

(** ** The outside world, the system state and the effect monad *)

(** What rasterio answers at clock [t]. *)
Record World : Type := {
  (* [SelfCleaningDatasetReader(url, sharing=False, driver=..., ...options)] *)
  rio_open : nat -> string -> option string -> list (string * string) -> Result DatasetInfo;
  (* [WarpedVRT(ds, sharing=False, ...kwargs)] *)
  rio_warp : nat -> DatasetInfo -> VrtKwargs -> Result VrtInfo;
  (* [reader.read(window=..., out_dtype=..., masked=True)] on a dataset,
     or on a VRT built over it with the given keywords *)
  rio_read : nat -> DatasetInfo -> option VrtKwargs -> Window -> np_dtype -> Result ndarray
}.

Inductive Lock : Type :=
| DatasetLock          (* [AutoParallelRioReader._dataset_lock] *)
| HandleLock.          (* [_lock] of the delegate *)

Inductive Scope : Type :=
| ScopeOpen            (* [gdal_env.open] *)
| ScopeOpenVrt         (* [gdal_env.open_vrt] *)
| ScopeRead.           (* [gdal_env.read] *)

Inductive Event : Type :=
| Warn (msg : Message)                           (* [warnings.warn(msg)] *)
| Acquire (l : Lock)
| Release (l : Lock)
| EnvEnter (sc : Scope)
| EnvExit (sc : Scope)
| NativeOpen (url : string) (driver : option string)
| NativeWarp (src : nat)
| NativeRead (handle : nat) (w : Window)
| NativeClose (handle : nat).

Record Sys : Type := {
  clock : nat;               (* native calls made so far *)
  trace : list Event         (* oldest event first *)
}.

Definition M (A : Type) : Type := Sys -> Result A * Sys.

Definition ret {A : Type} (a : A) : M A := fun s => (Ok a, s).

Definition raise {A : Type} (e : Exception) : M A := fun s => (Raise e, s).

Definition bind {A B : Type} (m : M A) (k : A -> M B) : M B :=
  fun s => match m s with
           | (Ok a, s') => k a s'
           | (Raise e, s') => (Raise e, s')
           end.

Definition lift {A : Type} (r : Result A) : M A := fun s => (r, s).

Definition log (ev : Event) (s : Sys) : Sys :=
  {| clock := clock s; trace := trace s ++ [ev] |}.

Definition tick (s : Sys) : Sys :=
  {| clock := S (clock s); trace := trace s |}.

Definition emit (ev : Event) : M unit := fun s => (Ok tt, log ev s).

(** [try: m except Exception as e: h e] *)
Definition try_except {A : Type} (m : M A) (h : Exception -> M A) : M A :=
  fun s => match m s with
           | (Ok a, s') => (Ok a, s')
           | (Raise e, s') => h e s'
           end.

(** [with cm: m], for a context manager whose entry and exit are the
    two events; the exit runs whether or not [m] raises. *)
Definition with_ctx {A : Type} (enter leave : Event) (m : M A) : M A :=
  fun s => let (r, s') := m (log enter s) in (r, log leave s').

Definition with_lock {A : Type} (l : Lock) (m : M A) : M A :=
  with_ctx (Acquire l) (Release l) m.

Definition with_env {A : Type} (sc : Scope) (m : M A) : M A :=
  with_ctx (EnvEnter sc) (EnvExit sc) m.

Notation "x <- m ;; k" := (bind m (fun x => k))
  (at level 61, m at next level, right associativity).
Notation "m ;;; k" := (bind m (fun _ => k))
  (at level 61, right associativity).

Variable world : World.

(** *** Native calls *)

(** A handle one can read from: the dataset itself or a VRT over it. *)
Inductive RioHandle : Type :=
| OfDataset (ds : Dataset)
| OfVrt (vrt : Vrt).

Definition SelfCleaningDatasetReader (url : string) (driver : option string)
    (options : list (string * string)) : M Dataset :=
  fun s =>
    let s1 := tick (log (NativeOpen url driver) s) in
    match rio_open world (clock s) url driver options with
    | Ok info => (Ok {| ds_id := clock s; ds_info := info |}, s1)
    | Raise e => (Raise e, s1)
    end.

Definition WarpedVRT (ds : Dataset) (kw : VrtKwargs) : M Vrt :=
  fun s =>
    let s1 := tick (log (NativeWarp (ds_id ds)) s) in
    match rio_warp world (clock s) (ds_info ds) kw with
    | Ok info => (Ok {| vrt_id := clock s; vrt_src := ds; vrt_kwargs := kw; vrt_info := info |}, s1)
    | Raise e => (Raise e, s1)
    end.

Definition handle_id (h : RioHandle) : nat :=
  match h with
  | OfDataset ds => ds_id ds
  | OfVrt vrt => vrt_id vrt
  end.

Definition native_read (h : RioHandle) (window : Window) (out_dtype : np_dtype) : M ndarray :=
  fun s =>
    let s1 := tick (log (NativeRead (handle_id h) window) s) in
    match h with
    | OfDataset ds => (rio_read world (clock s) (ds_info ds) None window out_dtype, s1)
    | OfVrt vrt =>
        (rio_read world (clock s) (ds_info (vrt_src vrt)) (Some (vrt_kwargs vrt)) window out_dtype, s1)
    end.

Definition native_close (handle : nat) : M unit :=
  fun s => (Ok tt, tick (log (NativeClose handle) s)).

(** [vrt or ds] *)
Definition vrt_or_ds (ds : Dataset) (vrt : option Vrt) : RioHandle :=
  match vrt with
  | Some v => OfVrt v
  | None => OfDataset ds
  end.

(** What becomes of a dataset and the VRT over it when the last
    references to them go: [SelfCleaningDatasetReader.__del__] calls
    [close()], and the finaliser of a [WarpedVRT] closes it too, as the
    comment in [ThreadLocalRioDataset.close] has it.  The VRT refers to
    its source dataset, so it goes first. *)
Definition finalise (ds : Dataset) (vrt : option Vrt) : M unit :=
  (match vrt with
   | Some v => native_close (vrt_id v)
   | None => ret tt
   end) ;;;
  native_close (ds_id ds).

(** ** The three delegates ([ThreadsafeRioDataset]) *)

(** Modelled from the spec: [NodataReader] lives in
    [stackstac/nodata_reader.py].  The spec (Synthetic Empty Resource):
    [read(window)] "returns a buffer of the configured fill value, shaped
    to the window's size, with the configured numeric type, instantly and
    without any external interaction"; [close()] is a no-op. *)
Record NodataReader : Type := {
  nr_dtype : np_dtype;
  nr_fill_value : num
}.

Definition nodata_read (self : NodataReader) (window : Window) : ndarray :=
  nodata_for_window window (nr_fill_value self) (nr_dtype self).

Record SingleThreadedRioDataset : Type := {
  st_env : LayeredEnv;
  st_ds : Dataset;
  st_vrt : option Vrt;
  st_scale_offset : num * num
}.

Definition SingleThreadedRioDataset_init (env : LayeredEnv) (ds : Dataset)
    (vrt : option Vrt) : SingleThreadedRioDataset :=
  {| st_env := env;
     st_ds := ds;
     st_vrt := vrt;
     st_scale_offset := (ds_scale0 (ds_info ds), ds_offset0 (ds_info ds)) |}.

Definition st_read (self : SingleThreadedRioDataset) (window : Window)
    (out_dtype : np_dtype) : M ndarray :=
  let reader := vrt_or_ds (st_ds self) (st_vrt self) in
  with_lock HandleLock (with_env ScopeRead (native_read reader window out_dtype)).

Definition st_close (self : SingleThreadedRioDataset) : M unit :=
  with_lock HandleLock
    ((match st_vrt self with
      | Some v => native_close (vrt_id v)
      | None => ret tt
      end) ;;;
     native_close (ds_id (st_ds self))).

(** [__del__], run when the delegate is dropped: [close()] once more;
    after that the attributes of the delegate go, the VRT and the
    dataset among them. *)
Definition st_del (self : SingleThreadedRioDataset) : M unit :=
  st_close self ;;;
  finalise (st_ds self) (st_vrt self).

Record ThreadLocalRioDataset : Type := {
  tl_env : LayeredEnv;
  tl_url : string;
  tl_driver : string;
  tl_open_options : list (string * string);
  tl_scale_offset : num * num;
  tl_vrt_params : option VrtKwargs;
  (* [threading.local()]: the [ds] and [vrt] attributes of each thread
     that has set them, newest binding first *)
  tl_threadlocal : list (nat * (Dataset * option Vrt))
}.

(** The [_vrt_params] dictionary copied from a VRT. *)
Definition vrt_params_of (vi : VrtInfo) : VrtKwargs :=
  {| kw_crs := inr (vi_crs_string vi);
     kw_transform := vi_transform vi;
     kw_height := vi_height vi;
     kw_width := vi_width vi;
     kw_resampling := vi_resampling vi;
     kw_add_alpha := match vi_nodata vi with None => true | Some _ => false end;
     kw_src_crs := None;
     kw_src_transform := vi_src_transform vi;
     kw_src_nodata := Some (vi_src_nodata vi);
     kw_nodata := Some (vi_nodata vi);
     kw_tolerance := Some (vi_tolerance vi);
     kw_dtype := Some (vi_working_dtype vi);
     kw_warp_extras := Some (vi_warp_extras vi) |}.

(** [ThreadLocalRioDataset(env, ds, vrt)] run by thread [tid]. *)
Definition ThreadLocalRioDataset_init (env : LayeredEnv) (ds : Dataset)
    (vrt : option Vrt) (tid : nat) : ThreadLocalRioDataset :=
  {| tl_env := env;
     tl_url := ds_name (ds_info ds);
     tl_driver := ds_driver (ds_info ds);
     tl_open_options := ds_options (ds_info ds);
     tl_scale_offset := (ds_scale0 (ds_info ds), ds_offset0 (ds_info ds));
     tl_vrt_params := option_map (fun v => vrt_params_of (vrt_info v)) vrt;
     tl_threadlocal := [(tid, (ds, vrt))] |}.

Definition set_threadlocal (self : ThreadLocalRioDataset)
    (tbl : list (nat * (Dataset * option Vrt))) : ThreadLocalRioDataset :=
  {| tl_env := tl_env self;
     tl_url := tl_url self;
     tl_driver := tl_driver self;
     tl_open_options := tl_open_options self;
     tl_scale_offset := tl_scale_offset self;
     tl_vrt_params := tl_vrt_params self;
     tl_threadlocal := tbl |}.

Fixpoint thread_attrs (tbl : list (nat * (Dataset * option Vrt))) (tid : nat)
    : option (Dataset * option Vrt) :=
  match tbl with
  | [] => None
  | (t, entry) :: rest => if Nat.eqb t tid then Some entry else thread_attrs rest tid
  end.

(** [ThreadLocalRioDataset._open], run by thread [tid]. *)
Definition tl_open (self : ThreadLocalRioDataset) (tid : nat)
    : M (RioHandle * ThreadLocalRioDataset) :=
  r <- with_env ScopeOpen
         (ds <- SelfCleaningDatasetReader (tl_url self) (Some (tl_driver self))
                  (tl_open_options self) ;;
          match tl_vrt_params self with
          | Some params =>
              vrt <- with_env ScopeOpenVrt (WarpedVRT ds params) ;;
              ret (OfVrt vrt, ds, Some vrt)
          | None => ret (OfDataset ds, ds, None)
          end) ;;
  let '(result, ds, vrt) := r in
  with_lock HandleLock
    (ret (result, set_threadlocal self ((tid, (ds, vrt)) :: tl_threadlocal self))).

(** The [dataset] property: the attributes of the calling thread, or
    [_open()] when the lookup raises [AttributeError]. *)
Definition tl_dataset (self : ThreadLocalRioDataset) (tid : nat)
    : M (RioHandle * ThreadLocalRioDataset) :=
  try_except
    (with_lock HandleLock
       match thread_attrs (tl_threadlocal self) tid with
       | Some (ds, vrt) => ret (vrt_or_ds ds vrt, self)
       | None => raise (Foreign "AttributeError" "vrt")
       end)
    (fun e =>
       match e with
       | Foreign ty _ => if String.eqb ty "AttributeError" then tl_open self tid else raise e
       | _ => raise e
       end).

(** [read]: the pool as it is after the call is returned next to the
    result, because a handle opened for the thread stays in the table
    even when the read that follows raises. *)
Definition tl_read (self : ThreadLocalRioDataset) (tid : nat) (window : Window)
    (out_dtype : np_dtype) (s : Sys) : Result ndarray * ThreadLocalRioDataset * Sys :=
  match tl_dataset self tid (log (EnvEnter ScopeRead) s) with
  | (Ok (h, self'), s1) =>
      let (r, s2) := native_read h window out_dtype s1 in
      (r, self', log (EnvExit ScopeRead) s2)
  | (Raise e, s1) => (Raise e, self, log (EnvExit ScopeRead) s1)
  end.

(** Dropping a [threading.local] drops the attributes every thread has
    set on it, here in the order of the table. *)
Fixpoint drop_threadlocal (tbl : list (nat * (Dataset * option Vrt))) : M unit :=
  match tbl with
  | [] => ret tt
  | (_, (ds, vrt)) :: rest => finalise ds vrt ;;; drop_threadlocal rest
  end.

(** [close]: the assignment of a fresh [threading.local()] drops the
    old one while the lock is held. *)
Definition tl_close (self : ThreadLocalRioDataset) : M ThreadLocalRioDataset :=
  with_lock HandleLock
    (drop_threadlocal (tl_threadlocal self) ;;;
     ret (set_threadlocal self [])).

Inductive ThreadsafeRioDataset : Type :=
| Nodata (r : NodataReader)
| SingleThreaded (d : SingleThreadedRioDataset)
| ThreadLocal (d : ThreadLocalRioDataset).

(** [reader.read(window=window, out_dtype=dtype, masked=True)] *)
Definition delegate_read (reader : ThreadsafeRioDataset) (tid : nat) (window : Window)
    (out_dtype : np_dtype) (s : Sys) : Result ndarray * ThreadsafeRioDataset * Sys :=
  match reader with
  | Nodata r => (Ok (nodata_read r window), reader, s)
  | SingleThreaded d =>
      let (r, s') := st_read d window out_dtype s in (r, reader, s')
  | ThreadLocal d =>
      let '(r, d', s') := tl_read d tid window out_dtype s in (r, ThreadLocal d', s')
  end.

(** [reader.close()]; the delegate is returned as the call leaves it. *)
Definition delegate_close (reader : ThreadsafeRioDataset) : M ThreadsafeRioDataset :=
  match reader with
  | Nodata r => ret reader
  | SingleThreaded d => st_close d ;;; ret reader
  | ThreadLocal d => d' <- tl_close d ;; ret (ThreadLocal d')
  end.

(** The delegate is dropped: a [SingleThreadedRioDataset] has a
    [__del__]; the other two have none, and a pool that goes takes its
    [threading.local] with it. *)
Definition delegate_del (reader : ThreadsafeRioDataset) : M unit :=
  match reader with
  | Nodata r => ret tt
  | SingleThreaded d => st_del d
  | ThreadLocal d => drop_threadlocal (tl_threadlocal d)
  end.

(** ** [AutoParallelRioReader] *)

Record AutoParallelRioReader : Type := {
  url : string;
  spec : RasterSpec;
  resampling : Resampling;
  dtype : np_dtype;
  fill_value : num;
  scale_offset : num * num;
  gdal_env : LayeredEnv;
  errors_as_nodata : list (Exception -> bool);
  _dataset : option ThreadsafeRioDataset
}.

(** [__init__]: [gdal_env or DEFAULT_GDAL_ENV]; the reader starts with no
    delegate and a fresh lock. *)
Definition __init__ (url : string) (spec : RasterSpec) (resampling : Resampling)
    (dtype : np_dtype) (fill_value : num) (scale_offset : num * num)
    (gdal_env : option LayeredEnv) (errors_as_nodata : list (Exception -> bool))
    : AutoParallelRioReader :=
  {| url := url;
     spec := spec;
     resampling := resampling;
     dtype := dtype;
     fill_value := fill_value;
     scale_offset := scale_offset;
     gdal_env := match gdal_env with Some env => env | None => DEFAULT_GDAL_ENV end;
     errors_as_nodata := errors_as_nodata;
     _dataset := None |}.

(** [self._dataset = d] *)
Definition set_dataset (self : AutoParallelRioReader) (d : option ThreadsafeRioDataset)
    : AutoParallelRioReader :=
  {| url := url self;
     spec := spec self;
     resampling := resampling self;
     dtype := dtype self;
     fill_value := fill_value self;
     scale_offset := scale_offset self;
     gdal_env := gdal_env self;
     errors_as_nodata := errors_as_nodata self;
     _dataset := d |}.

(** The current CRS and transform of the dataset, from its ground
    control points when it has some. *)
Definition current_geometry (info : DatasetInfo) : Result (option Z * Affine) :=
  match ds_gcps info with
  | _ :: _ =>
      match ds_gcps_epsg info with
      | Ok current_crs =>
          match ds_from_gcps info with
          | Ok current_transform => Ok (current_crs, current_transform)
          | Raise e => Raise e
          end
      | Raise e => Raise e
      end
  | [] =>
      match ds_crs_epsg info with
      | Ok current_crs => Ok (current_crs, ds_transform info)
      | Raise e => Raise e
      end
  end.

(** The keywords [_open] passes to [WarpedVRT]: the spec's parameters,
    the GCP-based source parameters when there are GCPs, the resampling
    mode and [add_alpha=ds.nodata is None]. *)
Definition open_vrt_kwargs (self : AutoParallelRioReader) (info : DatasetInfo)
    (current_transform : Affine) : VrtKwargs :=
  let has_gcps := match ds_gcps info with [] => false | _ :: _ => true end in
  let p := vrt_params (spec self) in
  {| kw_crs := inl (vp_crs p);
     kw_transform := vp_transform p;
     kw_height := vp_height p;
     kw_width := vp_width p;
     kw_resampling := resampling self;
     kw_add_alpha := match ds_nodata info with None => true | Some _ => false end;
     kw_src_crs := if has_gcps then Some (ds_gcps_crs info) else None;
     kw_src_transform := if has_gcps then Some current_transform else None;
     kw_src_nodata := if has_gcps then Some (ds_nodata info) else None;
     kw_nodata := None;
     kw_tolerance := None;
     kw_dtype := None;
     kw_warp_extras := None |}.

Definition open_error_msg (self : AutoParallelRioReader) (e : Exception) : Message :=
  [Lit "Error opening "; ReprStr (url self); Lit ": "; ReprExc e].

Definition band_count_msg (self : AutoParallelRioReader) (nr_of_bands : nat) : Message :=
  [Lit "Assets must have exactly 1 band, but file "; ReprStr (url self);
   Lit " has "; StrInt nr_of_bands;
   Lit ". We can't currently handle multi-band rasters (each band has to be a separate STAC asset), so you'll need to exclude this asset from your analysis."].

(** [_open], run by thread [tid].  The body of [with self.gdal_env.open]
    either returns the synthetic reader early ([inl]) or leaves [ds] and
    [vrt] for the choice of strategy ([inr]). *)
Definition _open (self : AutoParallelRioReader) (tid : nat) : M ThreadsafeRioDataset :=
  r <- with_env ScopeOpen
         (o <- try_except
                 (ds <- SelfCleaningDatasetReader (url self) None [] ;; ret (inr ds))
                 (fun e =>
                    let msg := open_error_msg self e in
                    if exception_matches e (errors_as_nodata self)
                    then emit (Warn msg) ;;;
                         ret (inl {| nr_dtype := dtype self; nr_fill_value := fill_value self |})
                    else raise (RuntimeError msg (Some e))) ;;
          match o with
          | inl nodata => ret (inl nodata)
          | inr ds =>
              let info := ds_info ds in
              if negb (Nat.eqb (ds_count info) 1)
              then let nr_of_bands := ds_count info in
                   native_close (ds_id ds) ;;;
                   raise (RuntimeError (band_count_msg self nr_of_bands) None)
              else
                geom <- lift (current_geometry info) ;;
                let '(current_crs, current_transform) := geom in
                let current_params :=
                  {| vp_crs := current_crs;
                     vp_transform := current_transform;
                     vp_height := ds_height info;
                     vp_width := ds_width info |} in
                if negb (vrt_params_eqb (vrt_params (spec self)) current_params)
                then vrt <- with_env ScopeOpenVrt
                              (WarpedVRT ds (open_vrt_kwargs self info current_transform)) ;;
                     ret (inr (ds, Some vrt))
                else ret (inr (ds, None))
          end) ;;
  match r with
  | inl nodata => ret (Nodata nodata)
  | inr (ds, vrt) =>
      if in_allowlist (ds_driver (ds_info ds))
      then ret (ThreadLocal (ThreadLocalRioDataset_init (gdal_env self) ds vrt tid))
      else ret (SingleThreaded (SingleThreadedRioDataset_init (gdal_env self) ds vrt))
  end.

(** The [dataset] property: open on first use, under [_dataset_lock];
    returns the delegate and the reader as the call leaves it. *)
Definition dataset (self : AutoParallelRioReader) (tid : nat)
    : M (ThreadsafeRioDataset * AutoParallelRioReader) :=
  with_lock DatasetLock
    match _dataset self with
    | None => d <- _open self tid ;; ret (d, set_dataset self (Some d))
    | Some d => ret (d, self)
    end.

Definition read_error_msg (self : AutoParallelRioReader) (window : Window) (e : Exception)
    : Message :=
  [Lit "Error reading "; StrWindow window; Lit " from "; ReprStr (url self);
   Lit ": "; ReprExc e].

(** The band selection after a successful delegate read. *)
Definition select_band (result : ndarray) : Result ndarray :=
  match shape result with
  | [] => Raise (Foreign "IndexError" "tuple index out of range")
  | shape0 :: _ =>
      if Nat.eqb shape0 2
      then Ok (masked_array (index result 0) (eq_zero (index result 1)))
      else if Nat.eqb shape0 1
      then Ok (index result 0)
      else if negb (Nat.eqb (ndim result) 2)
      then Raise (RuntimeError [Lit "Unexpected shape "; StrShape (shape result);
                                Lit ", expected exactly 1 band."] None)
      else Ok result
  end.

(** Scale, offset, fill and the final dtype assertion.  An error of
    the arithmetic leaves the function at once. *)
Definition rescale_and_fill (self : AutoParallelRioReader) (result : ndarray)
    : Result ndarray :=
  let '(scale, offset) := scale_offset self in
  match (if negb (num_eqb scale num_one) then imul result scale else Ok result) with
  | Raise e => Raise e
  | Ok result =>
      match (if negb (num_eqb offset num_zero) then iadd result offset else Ok result) with
      | Raise e => Raise e
      | Ok result =>
          match filled result (fill_value self) with
          | Raise e => Raise e
          | Ok result =>
              if issubdtype (arr_dtype result) (dtype self)
              then Ok result
              else Raise (AssertionError [Lit "Expected result array with dtype ";
                                          ReprDtype (dtype self); Lit ", got ";
                                          ReprDtype (arr_dtype result)])
          end
      end
  end.

Definition postprocess (self : AutoParallelRioReader) (result : ndarray) : Result ndarray :=
  match select_band result with
  | Ok band => rescale_and_fill self band
  | Raise e => Raise e
  end.

(** [read(window)], called by thread [tid].  Returns the outcome, the
    reader as the call leaves it, and the system state.  The delegate is
    held by value, so what the delegate call did to the delegate object
    is written back into [_dataset]; the field itself is assigned by
    [dataset] and [close] only. *)
Definition read (self : AutoParallelRioReader) (tid : nat) (window : Window) (s : Sys)
    : Result ndarray * AutoParallelRioReader * Sys :=
  match dataset self tid s with
  | (Raise e, s1) => (Raise e, self, s1)
  | (Ok (reader, self1), s1) =>
      let '(r, reader', s2) := delegate_read reader tid window (dtype self1) s1 in
      let self2 := set_dataset self1 (Some reader') in
      match r with
      | Raise e =>
          let msg := read_error_msg self2 window e in
          if exception_matches e (errors_as_nodata self2)
          then (Ok (nodata_for_window window (fill_value self2) (dtype self2)),
                self2, log (Warn msg) s2)
          else (Raise (RuntimeError msg (Some e)), self2, s2)
      | Ok result => (postprocess self2 result, self2, s2)
      end
  end.

(** [close()]: [self._dataset = None] drops the delegate that has just
    been closed. *)
Definition close (self : AutoParallelRioReader) : M AutoParallelRioReader :=
  with_lock DatasetLock
    match _dataset self with
    | None => ret self
    | Some d =>
        d' <- delegate_close d ;;
        delegate_del d' ;;;
        ret (set_dataset self None)
    end.

(** *** Pickling *)

Record PickleState : Type := {
  ps_url : string;
  ps_spec : RasterSpec;
  ps_resampling : Resampling;
  ps_dtype : np_dtype;
  ps_fill_value : num;
  ps_scale_offset : num * num;
  ps_gdal_env : option LayeredEnv;
  ps_errors_as_nodata : list (Exception -> bool)
}.

Definition __getstate__ (self : AutoParallelRioReader) : PickleState :=
  {| ps_url := url self;
     ps_spec := spec self;
     ps_resampling := resampling self;
     ps_dtype := dtype self;
     ps_fill_value := fill_value self;
     ps_scale_offset := scale_offset self;
     ps_gdal_env := Some (gdal_env self);
     ps_errors_as_nodata := errors_as_nodata self |}.

(** [__setstate__]: [self.__init__] on the items of [state] as keywords *)
Definition __setstate__ (state : PickleState) : AutoParallelRioReader :=
  __init__ (ps_url state) (ps_spec state) (ps_resampling state) (ps_dtype state)
           (ps_fill_value state) (ps_scale_offset state) (ps_gdal_env state)
           (ps_errors_as_nodata state).

End Model.

Arguments ndarray : clear implicits.
Arguments Affine : clear implicits.
Arguments VrtParams : clear implicits.
Arguments RasterSpec : clear implicits.
Arguments DatasetInfo : clear implicits.
Arguments VrtKwargs : clear implicits.
Arguments VrtInfo : clear implicits.
Arguments Dataset : clear implicits.
Arguments Vrt : clear implicits.
Arguments World : clear implicits.
Arguments RioHandle : clear implicits.
Arguments NodataReader : clear implicits.
Arguments SingleThreadedRioDataset : clear implicits.
Arguments ThreadLocalRioDataset : clear implicits.
Arguments ThreadsafeRioDataset : clear implicits.
Arguments AutoParallelRioReader : clear implicits.
Arguments PickleState : clear implicits.

(** ** Vocabulary of the statements *)

Section Vocabulary.

Context {num : Type} {PN : PyNumber num}.

Variable world : World num.

(** Two values of the [_dataset] field denote the same delegate object:
    nothing but the thread table of a [ThreadLocalRioDataset] ever
    changes once a delegate is built. *)
Definition same_instance (a b : ThreadsafeRioDataset num) : Prop :=
  match a, b with
  | Nodata x, Nodata y => x = y
  | SingleThreaded x, SingleThreaded y => x = y
  | ThreadLocal x, ThreadLocal y => set_threadlocal x [] = set_threadlocal y []
  | _, _ => False
  end.

(** The calling thread already owns a handle in the delegate, so a read
    through it opens nothing. *)
Definition thread_is_served (d : ThreadsafeRioDataset num) (tid : nat) : Prop :=
  match d with
  | ThreadLocal tl => thread_attrs (tl_threadlocal tl) tid <> None
  | _ => True
  end.

(** How often [AutoParallelRioReader._open] has opened a URL: it is the
    only caller that passes no driver. *)
Fixpoint reader_opens (tr : list Event) : nat :=
  match tr with
  | [] => 0
  | NativeOpen _ None :: rest => S (reader_opens rest)
  | _ :: rest => reader_opens rest
  end.

Fixpoint warnings (tr : list Event) : list Message :=
  match tr with
  | [] => []
  | Warn msg :: rest => msg :: warnings rest
  | _ :: rest => warnings rest
  end.

(** A run of [read] calls, each by a thread on a window; the outcomes
    are dropped, the reader and the system state are carried along. *)
Fixpoint reads (self : AutoParallelRioReader num) (calls : list (nat * Window)) (s : Sys)
    : AutoParallelRioReader num * Sys :=
  match calls with
  | [] => (self, s)
  | (tid, window) :: rest =>
      let '(_, self', s') := read world self tid window s in
      reads self' rest s'
  end.

(** The resource stays as it is: what rasterio answers does not depend
    on when it is asked. *)
Definition stationary : Prop :=
  (forall t t' u drv opts, rio_open world t u drv opts = rio_open world t' u drv opts)
  /\ (forall t t' info kw, rio_warp world t info kw = rio_warp world t' info kw)
  /\ (forall t t' info kw win dt,
        rio_read world t info kw win dt = rio_read world t' info kw win dt).

(** The state in which [_open] finds the system after its native open. *)
Definition after_native_open (self : AutoParallelRioReader num) (s : Sys) : Sys :=
  tick (log (NativeOpen (url self) None) (log (EnvEnter ScopeOpen) s)).

End Vocabulary.

(** ** Concrete inputs *)

Definition not_found : Exception :=
  Foreign "RasterioIOError" "No such file or directory".

Definition fresh_sys : Sys := {| clock := 0; trace := [] |}.

Definition window_of (rows cols : nat) : Window :=
  {| col_off := 0; row_off := 0; width := cols; height := rows |}.

Definition identity_affine : Affine Z := [1; 0; 0; 0; 1; 0]%Z.

Definition spec_4x4 : RasterSpec Z :=
  {| vrt_params := {| vp_crs := Some 4326%Z; vp_transform := identity_affine;
                      vp_height := 4; vp_width := 4 |} |}.

(** A reader of [int16] pixels with fill value 7 that treats every
    exception as "no data". *)
Definition tolerant_reader (scale offset : Z) : AutoParallelRioReader Z :=
  __init__ "s3://bucket/scene.tif" spec_4x4 0 "int16" 7%Z (scale, offset) None
           [fun _ => true].

(** The same reader with an empty recognised-error set. *)
Definition strict_reader (scale offset : Z) : AutoParallelRioReader Z :=
  __init__ "s3://bucket/scene.tif" spec_4x4 0 "int16" 7%Z (scale, offset) None [].

(** A dataset that already has the geometry of [spec_4x4]. *)
Definition scene_info (driver : string) (bands : nat) : DatasetInfo Z :=
  {| ds_name := "s3://bucket/scene.tif";
     ds_driver := driver;
     ds_options := [];
     ds_count := bands;
     ds_nodata := Some 0%Z;
     ds_scale0 := 1%Z;
     ds_offset0 := 0%Z;
     ds_gcps := [];
     ds_gcps_crs := "EPSG:4326";
     ds_gcps_epsg := Ok None;
     ds_from_gcps := Ok [];
     ds_crs_epsg := Ok (Some 4326%Z);
     ds_transform := identity_affine;
     ds_height := 4;
     ds_width := 4 |}.

(** A one-band dataset without a CRS: [ds.crs] is [None], so
    [ds.crs.to_epsg()] raises. *)
Definition scene_without_crs : DatasetInfo Z :=
  {| ds_name := "s3://bucket/scene.tif";
     ds_driver := "GTiff";
     ds_options := [];
     ds_count := 1;
     ds_nodata := None;
     ds_scale0 := 1%Z;
     ds_offset0 := 0%Z;
     ds_gcps := [];
     ds_gcps_crs := "EPSG:4326";
     ds_gcps_epsg := Ok None;
     ds_from_gcps := Ok [];
     ds_crs_epsg := Raise (Foreign "AttributeError" "to_epsg");
     ds_transform := identity_affine;
     ds_height := 4;
     ds_width := 4 |}.

(** A one-band dataset of 8 by 8 pixels, which has to be warped onto
    [spec_4x4]. *)
Definition larger_scene : DatasetInfo Z :=
  {| ds_name := "s3://bucket/scene.tif";
     ds_driver := "GTiff";
     ds_options := [];
     ds_count := 1;
     ds_nodata := None;
     ds_scale0 := 1%Z;
     ds_offset0 := 0%Z;
     ds_gcps := [];
     ds_gcps_crs := "EPSG:4326";
     ds_gcps_epsg := Ok None;
     ds_from_gcps := Ok [];
     ds_crs_epsg := Ok (Some 4326%Z);
     ds_transform := identity_affine;
     ds_height := 8;
     ds_width := 8 |}.

(** One band, two pixels: 5 is valid, the second pixel is masked. *)
Definition one_band : ndarray Z :=
  {| shape := [1; 1; 2]; arr_dtype := "int16"; elems := [(5%Z, false); (0%Z, true)] |}.

(** Data and alpha: alpha is 255 over the first pixel and 0 over the
    second. *)
Definition data_and_alpha : ndarray Z :=
  {| shape := [2; 1; 2]; arr_dtype := "int16";
     elems := [(5%Z, false); (9%Z, false); (255%Z, false); (0%Z, false)] |}.

Definition three_bands : ndarray Z :=
  {| shape := [3; 1; 1]; arr_dtype := "int16";
     elems := [(1%Z, false); (2%Z, false); (3%Z, false)] |}.

(** Nothing can be opened. *)
Definition unreachable_world : World Z :=
  {| rio_open := fun _ _ _ _ => Raise not_found;
     rio_warp := fun _ _ _ => Raise not_found;
     rio_read := fun _ _ _ _ _ => Raise not_found |}.

(** Every open yields [info] and every read yields [a]; no VRT can be
    built. *)
Definition steady_world (info : DatasetInfo Z) (a : ndarray Z) : World Z :=
  {| rio_open := fun _ _ _ _ => Ok info;
     rio_warp := fun _ _ _ => Raise not_found;
     rio_read := fun _ _ _ _ _ => Ok a |}.

(** Every open yields [info]; the native call made at clock 1 fails, the
    later ones yield [a]. *)
Definition flaky_world (info : DatasetInfo Z) (a : ndarray Z) : World Z :=
  {| rio_open := fun _ _ _ _ => Ok info;
     rio_warp := fun _ _ _ => Raise not_found;
     rio_read := fun t _ _ _ _ => if Nat.eqb t 1 then Raise not_found else Ok a |}.

(** Every read fails. *)
Definition unreadable_world (info : DatasetInfo Z) : World Z :=
  {| rio_open := fun _ _ _ _ => Ok info;
     rio_warp := fun _ _ _ => Raise not_found;
     rio_read := fun _ _ _ _ _ => Raise not_found |}.

(** ** Vocabulary for the delegates and the life cycle *)

(** What is open on the stack of [with] blocks while a trace runs. *)
Inductive Bracket : Type :=
| HeldLock (l : Lock)
| EnteredScope (sc : Scope).

Definition lock_eqb (a b : Lock) : bool :=
  match a, b with
  | DatasetLock, DatasetLock => true
  | HandleLock, HandleLock => true
  | _, _ => false
  end.

Definition scope_eqb (a b : Scope) : bool :=
  match a, b with
  | ScopeOpen, ScopeOpen => true
  | ScopeOpenVrt, ScopeOpenVrt => true
  | ScopeRead, ScopeRead => true
  | _, _ => false
  end.

Fixpoint holds (l : Lock) (stack : list Bracket) : bool :=
  match stack with
  | [] => false
  | HeldLock l' :: rest => lock_eqb l l' || holds l rest
  | EnteredScope _ :: rest => holds l rest
  end.

(** Runs a trace against the stack of open blocks: locks and
    environment scopes have to be left in the reverse order of their
    entry, and a lock that is held is not acquired again (a
    [threading.Lock] is not reentrant).  [None] when the trace breaks
    the discipline, the stack that is left otherwise. *)
Fixpoint nesting (stack : list Bracket) (tr : list Event) : option (list Bracket) :=
  match tr with
  | [] => Some stack
  | Acquire l :: rest =>
      if holds l stack then None else nesting (HeldLock l :: stack) rest
  | Release l :: rest =>
      match stack with
      | HeldLock l' :: below => if lock_eqb l l' then nesting below rest else None
      | _ => None
      end
  | EnvEnter sc :: rest => nesting (EnteredScope sc :: stack) rest
  | EnvExit sc :: rest =>
      match stack with
      | EnteredScope sc' :: below => if scope_eqb sc sc' then nesting below rest else None
      | _ => None
      end
  | _ :: rest => nesting stack rest
  end.

(** Every native read and close of the trace happens while the lock of
    the delegate is held, and the lock is free at the end. *)
Fixpoint serialised (held : bool) (tr : list Event) : bool :=
  match tr with
  | [] => negb held
  | Acquire HandleLock :: rest => negb held && serialised true rest
  | Release HandleLock :: rest => held && serialised false rest
  | NativeRead _ _ :: rest => held && serialised held rest
  | NativeClose _ :: rest => held && serialised held rest
  | _ :: rest => serialised held rest
  end.

(** The event is no native call other than a read of [handle]. *)
Definition reads_only (handle : nat) (ev : Event) : Prop :=
  match ev with
  | NativeRead h _ => h = handle
  | NativeOpen _ _ => False
  | NativeWarp _ => False
  | NativeClose _ => False
  | _ => True
  end.

(** The opens a [ThreadLocalRioDataset] makes for its threads: they, and
    only they, pass a driver. *)
Fixpoint pool_opens (tr : list Event) : nat :=
  match tr with
  | [] => 0
  | NativeOpen _ (Some _) :: rest => S (pool_opens rest)
  | _ :: rest => pool_opens rest
  end.

(** The handles closed by a trace, in order. *)
Fixpoint native_closes (tr : list Event) : list nat :=
  match tr with
  | [] => []
  | NativeClose handle :: rest => handle :: native_closes rest
  | _ :: rest => native_closes rest
  end.

(** No event of the trace takes or releases the lock [l]. *)
Fixpoint keeps_lock (l : Lock) (tr : list Event) : bool :=
  match tr with
  | [] => true
  | Acquire l' :: rest => negb (lock_eqb l l') && keeps_lock l rest
  | Release l' :: rest => negb (lock_eqb l l') && keeps_lock l rest
  | _ :: rest => keeps_lock l rest
  end.

(** The state after the handles [hs] have been closed one by one. *)
Definition closed (hs : list nat) (s : Sys) : Sys :=
  fold_left (fun s h => tick (log (NativeClose h) s)) hs s.

(** The [WarpedVRT] constructions of a trace. *)
Fixpoint native_warps (tr : list Event) : nat :=
  match tr with
  | [] => 0
  | NativeWarp _ :: rest => S (native_warps rest)
  | _ :: rest => native_warps rest
  end.

Section DelegateVocabulary.

Context {num : Type} {PN : PyNumber num}.

Variable world : World num.

(** A run of [read] calls on a [ThreadLocalRioDataset]. *)
Fixpoint tl_reads (self : ThreadLocalRioDataset num) (calls : list (nat * Window))
    (out_dtype : np_dtype) (s : Sys) : ThreadLocalRioDataset num * Sys :=
  match calls with
  | [] => (self, s)
  | (tid, window) :: rest =>
      let '(_, self', s') := tl_read world self tid window out_dtype s in
      tl_reads self' rest out_dtype s'
  end.

(** The handles behind a dataset and its VRT, the VRT first. *)
Definition handles_of (ds : Dataset num) (vrt : option (Vrt num)) : list nat :=
  match vrt with
  | Some v => [vrt_id v; ds_id ds]
  | None => [ds_id ds]
  end.

(** The handles a pool holds for its threads, in the order of the
    table. *)
Definition table_handles (tbl : list (nat * (Dataset num * option (Vrt num)))) : list nat :=
  flat_map (fun '(_, (ds, vrt)) => handles_of ds vrt) tbl.

(** What [close] does to the delegate it finds, as events: a
    lock-serialised delegate closes its handles under its lock, does so
    again when it is dropped, and its handles are closed once more when
    they go; a pool drops the handles of its threads under its lock. *)
Definition close_events (d : option (ThreadsafeRioDataset num)) : list Event :=
  match d with
  | Some (SingleThreaded st) =>
      let closes := map NativeClose (handles_of (st_ds st) (st_vrt st)) in
      Acquire HandleLock :: closes ++ Release HandleLock
        :: Acquire HandleLock :: closes ++ Release HandleLock :: closes
  | Some (ThreadLocal tl) =>
      Acquire HandleLock
        :: map NativeClose (table_handles (tl_threadlocal tl)) ++ [Release HandleLock]
  | _ => []
  end.

(** The VRT through which the delegate reads for thread [tid], if any. *)
Definition delegate_vrt (d : ThreadsafeRioDataset num) (tid : nat) : option (Vrt num) :=
  match d with
  | Nodata _ => None
  | SingleThreaded st => st_vrt st
  | ThreadLocal tl =>
      match thread_attrs (tl_threadlocal tl) tid with
      | Some (_, vrt) => vrt
      | None => None
      end
  end.

End DelegateVocabulary.

(** A pool built by thread 0 over an open GeoTIFF that needs no VRT. *)
Definition gtiff_pool : ThreadLocalRioDataset Z :=
  ThreadLocalRioDataset_init DEFAULT_GDAL_ENV
    {| ds_id := 0; ds_info := scene_info "GTiff" 1 |} None 0.

(** A lock-serialised delegate over an open HDF5 dataset. *)
Definition hdf5_delegate : SingleThreadedRioDataset Z :=
  SingleThreadedRioDataset_init DEFAULT_GDAL_ENV
    {| ds_id := 0; ds_info := scene_info "HDF5" 1 |} None.

(** Every open and VRT construction succeeds; every read yields [a]. *)
Definition warping_world (info : DatasetInfo Z) (vi : VrtInfo Z) (a : ndarray Z) : World Z :=
  {| rio_open := fun _ _ _ _ => Ok info;
     rio_warp := fun _ _ _ => Ok vi;
     rio_read := fun _ _ _ _ _ => Ok a |}.

Definition vrt_4x4 : VrtInfo Z :=
  {| vi_crs_string := "EPSG:4326";
     vi_resampling := 0;
     vi_tolerance := 0%Z;
     vi_src_nodata := None;
     vi_nodata := None;
     vi_width := 4;
     vi_height := 4;
     vi_src_transform := None;
     vi_transform := identity_affine;
     vi_working_dtype := None;
     vi_warp_extras := [] |}.

(** The first native call fails; from then on every open yields [info]
    and every read yields [a]. *)
Definition recovering_world (info : DatasetInfo Z) (a : ndarray Z) : World Z :=
  {| rio_open := fun t _ _ _ => if Nat.eqb t 0 then Raise not_found else Ok info;
     rio_warp := fun _ _ _ => Raise not_found;
     rio_read := fun _ _ _ _ _ => Ok a |}.

(** A VRT built over dataset 0 of [larger_scene]. *)
Definition first_vrt : Vrt Z :=
  {| vrt_id := 1;
     vrt_src := {| ds_id := 0; ds_info := larger_scene |};
     vrt_kwargs := open_vrt_kwargs (tolerant_reader 1 0) larger_scene identity_affine;
     vrt_info := vrt_4x4 |}.

(** One band of [int32] pixels. *)
Definition one_band_int32 : ndarray Z :=
  {| shape := [1; 1; 2]; arr_dtype := "int32"; elems := [(5%Z, false); (0%Z, true)] |}.

(** One band of [int16] pixels whose valid pixel is 20000. *)
Definition bright_band : ndarray Z :=
  {| shape := [1; 1; 2]; arr_dtype := "int16"; elems := [(20000%Z, false); (0%Z, true)] |}.

(** * Properties *)

Unset Implicit Arguments.

Section Properties.

Context {num : Type} {PN : PyNumber num}.

Variable world : World num.

Implicit Types (self : AutoParallelRioReader num) (d : ThreadsafeRioDataset num).
Implicit Types (s : Sys) (tid : nat) (window : Window) (e : Exception).

(** ** Unfolding [dataset] and [read] *)

Lemma dataset_opened self d tid s :
  _dataset self = Some d ->
  dataset world self tid s
  = (Ok (d, self), log (Release DatasetLock) (log (Acquire DatasetLock) s)).
Proof.
  intros H. unfold dataset, with_lock, with_ctx. rewrite H. reflexivity.
Qed.

Lemma dataset_unopened self tid s :
  _dataset self = None ->
  dataset world self tid s
  = match _open world self tid (log (Acquire DatasetLock) s) with
    | (Ok d, s') => (Ok (d, set_dataset self (Some d)), log (Release DatasetLock) s')
    | (Raise e, s') => (Raise e, log (Release DatasetLock) s')
    end.
Proof.
  intros H. unfold dataset, with_lock, with_ctx, bind, ret. rewrite H.
  destruct (_open world self tid (log (Acquire DatasetLock) s)) as [[d | e] s']; reflexivity.
Qed.

(** Whatever [dataset] returns, the reader it leaves holds the returned
    delegate and keeps its constructor fields. *)
Lemma dataset_result self tid s d self1 s1 :
  dataset world self tid s = (Ok (d, self1), s1) ->
  self1 = set_dataset self (Some d).
Proof.
  intros H. destruct (_dataset self) as [d0 |] eqn:E.
  - rewrite (dataset_opened _ _ tid s E) in H. inversion H; subst.
    destruct self1; simpl in *; subst; reflexivity.
  - rewrite (dataset_unopened _ tid s E) in H.
    destruct (_open world self tid _) as [[d1 | e] s']; inversion H; reflexivity.
Qed.

Lemma read_open_raises self tid window s e s1 :
  dataset world self tid s = (Raise e, s1) ->
  read world self tid window s = (Raise e, self, s1).
Proof.
  intros H. unfold read. rewrite H. reflexivity.
Qed.

Lemma read_delegate_ok self tid window s d self1 s1 result d' s2 :
  dataset world self tid s = (Ok (d, self1), s1) ->
  delegate_read world d tid window (dtype self) s1 = (Ok result, d', s2) ->
  read world self tid window s
  = (postprocess self result, set_dataset self (Some d'), s2).
Proof.
  intros Hd Hr. unfold read. rewrite Hd.
  rewrite (dataset_result _ _ _ _ _ _ Hd). simpl. rewrite Hr. reflexivity.
Qed.

Lemma read_delegate_raises self tid window s d self1 s1 e d' s2 :
  dataset world self tid s = (Ok (d, self1), s1) ->
  delegate_read world d tid window (dtype self) s1 = (Raise e, d', s2) ->
  read world self tid window s
  = if exception_matches e (errors_as_nodata self)
    then (Ok (nodata_for_window window (fill_value self) (dtype self)),
          set_dataset self (Some d'), log (Warn (read_error_msg self window e)) s2)
    else (Raise (RuntimeError (read_error_msg self window e) (Some e)),
          set_dataset self (Some d'), s2).
Proof.
  intros Hd Hr. unfold read. rewrite Hd.
  rewrite (dataset_result _ _ _ _ _ _ Hd). simpl. rewrite Hr. reflexivity.
Qed.

(** ** The outcomes of [_open] *)

Ltac unfold_monad :=
  unfold with_env, with_lock, with_ctx, try_except, bind, ret, raise, lift, emit,
         SelfCleaningDatasetReader, WarpedVRT, native_close, native_read.

Lemma _open_recognised self tid s e :
  rio_open world (clock s) (url self) None [] = Raise e ->
  exception_matches e (errors_as_nodata self) = true ->
  _open world self tid s
  = (Ok (Nodata {| nr_dtype := dtype self; nr_fill_value := fill_value self |}),
     log (EnvExit ScopeOpen) (log (Warn (open_error_msg self e)) (after_native_open self s))).
Proof.
  intros Ho Hm. unfold _open, after_native_open. unfold_monad. simpl.
  rewrite Ho, Hm. reflexivity.
Qed.

Lemma _open_unrecognised self tid s e :
  rio_open world (clock s) (url self) None [] = Raise e ->
  exception_matches e (errors_as_nodata self) = false ->
  _open world self tid s
  = (Raise (RuntimeError (open_error_msg self e) (Some e)),
     log (EnvExit ScopeOpen) (after_native_open self s)).
Proof.
  intros Ho Hm. unfold _open, after_native_open. unfold_monad. simpl.
  rewrite Ho, Hm. reflexivity.
Qed.

Lemma _open_band_count self tid s info :
  rio_open world (clock s) (url self) None [] = Ok info ->
  ds_count info <> 1 ->
  _open world self tid s
  = (Raise (RuntimeError (band_count_msg self (ds_count info)) None),
     log (EnvExit ScopeOpen)
       (tick (log (NativeClose (clock s)) (after_native_open self s)))).
Proof.
  intros Ho Hc. unfold _open, after_native_open. unfold_monad. simpl.
  rewrite Ho. simpl.
  destruct (Nat.eqb (ds_count info) 1) eqn:E.
  - apply Nat.eqb_eq in E. contradiction.
  - reflexivity.
Qed.

Lemma _open_geometry_raises self tid s info e :
  rio_open world (clock s) (url self) None [] = Ok info ->
  ds_count info = 1 ->
  current_geometry info = Raise e ->
  _open world self tid s
  = (Raise e, log (EnvExit ScopeOpen) (after_native_open self s)).
Proof.
  intros Ho Hc Hg. unfold _open, after_native_open. unfold_monad. simpl.
  rewrite Ho. simpl. rewrite Hc. simpl. rewrite Hg. reflexivity.
Qed.

Lemma _open_warp_raises self tid s info crs tr e :
  rio_open world (clock s) (url self) None [] = Ok info ->
  ds_count info = 1 ->
  current_geometry info = Ok (crs, tr) ->
  vrt_params_eqb (vrt_params (spec self))
    {| vp_crs := crs; vp_transform := tr;
       vp_height := ds_height info; vp_width := ds_width info |} = false ->
  rio_warp world (S (clock s)) info (open_vrt_kwargs self info tr) = Raise e ->
  _open world self tid s
  = (Raise e,
     log (EnvExit ScopeOpen)
       (log (EnvExit ScopeOpenVrt)
          (tick (log (NativeWarp (clock s))
                   (log (EnvEnter ScopeOpenVrt) (after_native_open self s)))))).
Proof.
  intros Ho Hc Hg Hp Hw. unfold _open, after_native_open. unfold_monad. simpl.
  rewrite Ho. simpl. rewrite Hc. simpl. rewrite Hg. simpl. rewrite Hp. simpl.
  rewrite Hw. reflexivity.
Qed.

(** When [_open] returns a delegate although the native open succeeded,
    the delegate is built from the opened dataset and the kind of
    delegate is read off the driver. *)
Lemma _open_strategy self tid s info d s' :
  rio_open world (clock s) (url self) None [] = Ok info ->
  _open world self tid s = (Ok d, s') ->
  exists vrt,
    let ds := {| ds_id := clock s; ds_info := info |} in
    d = if in_allowlist (ds_driver info)
        then ThreadLocal (ThreadLocalRioDataset_init (gdal_env self) ds vrt tid)
        else SingleThreaded (SingleThreadedRioDataset_init (gdal_env self) ds vrt).
Proof.
  intros Ho. unfold _open. unfold_monad. simpl. rewrite Ho. simpl.
  destruct (Nat.eqb (ds_count info) 1); simpl; [| discriminate].
  destruct (current_geometry info) as [[crs tr] | e]; simpl; [| discriminate].
  destruct (vrt_params_eqb _ _); simpl.
  - destruct (in_allowlist (ds_driver info)); intros H; inversion H; subst;
      exists None; reflexivity.
  - destruct (rio_warp world _ _ _) as [vi | e]; simpl; [| discriminate].
    destruct (in_allowlist (ds_driver info)); intros H; inversion H; subst;
      eexists (Some _); reflexivity.
Qed.

Lemma in_allowlist_spec driver :
  in_allowlist driver = true <-> In driver MULTITHREADED_DRIVER_ALLOWLIST.
Proof.
  unfold in_allowlist. rewrite existsb_exists. split.
  - intros [x [Hin Heq]]. apply String.eqb_eq in Heq. subst. exact Hin.
  - intros Hin. exists driver. split; [exact Hin | apply String.eqb_refl].
Qed.

(** ** Traces and buffers *)

Lemma warnings_app (a b : list Event) : warnings (a ++ b) = warnings a ++ warnings b.
Proof.
  induction a as [| ev a IH]; simpl; [reflexivity |].
  destruct ev; simpl; rewrite IH; reflexivity.
Qed.

Lemma reader_opens_app (a b : list Event) :
  reader_opens (a ++ b) = reader_opens a + reader_opens b.
Proof.
  induction a as [| ev a IH]; simpl; [reflexivity |].
  destruct ev as [| | | | | u [drv |] | | |]; simpl; rewrite IH; reflexivity.
Qed.

(** The buffer [nodata_for_window] builds: window-shaped, of the given
    dtype, every element the fill value and none masked. *)
Lemma nodata_for_window_spec window (f : num) (dt : np_dtype) :
  let buf := nodata_for_window window f dt in
  shape buf = [height window; width window]
  /\ arr_dtype buf = dt
  /\ List.length (elems buf) = height window * width window
  /\ Forall (fun x => x = (f, false)) (elems buf).
Proof.
  unfold nodata_for_window, full. simpl. repeat split.
  - rewrite repeat_length. lia.
  - apply Forall_forall. intros x Hx. apply repeat_spec in Hx. exact Hx.
Qed.

(** ** Claims about opening *)

(** C6.  A resource that opens but does not have exactly one band makes
    the open fail fatally, whatever the recognised-error set of the
    reader is: the read that triggered the open raises a [RuntimeError]
    whose message carries the band count and the locator, the dataset
    that was just opened (handle [clock s]) is closed before the error
    leaves [_open], no warning is emitted and the reader stays unopened. *)
Theorem C6_band_count_is_fatal self tid window s info :
  _dataset self = None ->
  rio_open world (clock s) (url self) None [] = Ok info ->
  ds_count info <> 1 ->
  exists s',
    read world self tid window s
    = (Raise (RuntimeError (band_count_msg self (ds_count info)) None), self, s')
    /\ In (StrInt (ds_count info)) (band_count_msg self (ds_count info))
    /\ In (ReprStr (url self)) (band_count_msg self (ds_count info))
    /\ trace s'
       = trace s ++ [Acquire DatasetLock; EnvEnter ScopeOpen;
                     NativeOpen (url self) None; NativeClose (clock s);
                     EnvExit ScopeOpen; Release DatasetLock].
Proof.
  intros Hnone Ho Hc.
  pose proof (dataset_unopened self tid s Hnone) as Hd.
  rewrite (_open_band_count self tid (log (Acquire DatasetLock) s) info Ho Hc) in Hd.
  eexists. split; [apply read_open_raises; exact Hd |].
  split; [simpl; auto |]. split; [simpl; auto |].
  unfold after_native_open. simpl. repeat rewrite <- app_assoc. reflexivity.
Qed.

(** C7.  When the resource opens and [_open] returns a delegate, the
    kind of delegate depends on the driver alone: a
    [ThreadLocalRioDataset] when the driver is in
    [MULTITHREADED_DRIVER_ALLOWLIST], a [SingleThreadedRioDataset]
    otherwise. *)
Theorem C7_strategy_by_driver self tid s info d s' :
  rio_open world (clock s) (url self) None [] = Ok info ->
  _open world self tid s = (Ok d, s') ->
  (In (ds_driver info) MULTITHREADED_DRIVER_ALLOWLIST -> exists tl, d = ThreadLocal tl)
  /\ (~ In (ds_driver info) MULTITHREADED_DRIVER_ALLOWLIST ->
      exists st, d = SingleThreaded st).
Proof.
  intros Ho Hopen.
  destruct (_open_strategy self tid s info d s' Ho Hopen) as [vrt Hd]. simpl in Hd.
  split; intros Hin.
  - apply in_allowlist_spec in Hin. rewrite Hin in Hd. eexists. exact Hd.
  - destruct (in_allowlist (ds_driver info)) eqn:E.
    + apply in_allowlist_spec in E. contradiction.
    + eexists. exact Hd.
Qed.

(** C10.  Only the native open is covered by the recognised-error set.
    Once a one-band dataset is open, an exception [e] raised while its
    geometry is inspected, or by the construction of the [WarpedVRT],
    reaches the caller of [read] as it is, whether or not
    [errors_as_nodata] accepts [e]: no warning is emitted and the reader
    stays unopened instead of holding the synthetic delegate. *)
Theorem C10_later_failures_propagate self tid window s info e :
  _dataset self = None ->
  rio_open world (clock s) (url self) None [] = Ok info ->
  ds_count info = 1 ->
  (current_geometry info = Raise e
   \/ exists crs tr,
        current_geometry info = Ok (crs, tr)
        /\ vrt_params_eqb (vrt_params (spec self))
             {| vp_crs := crs; vp_transform := tr;
                vp_height := ds_height info; vp_width := ds_width info |} = false
        /\ rio_warp world (S (clock s)) info (open_vrt_kwargs self info tr) = Raise e) ->
  exists s',
    read world self tid window s = (Raise e, self, s')
    /\ warnings (trace s') = warnings (trace s).
Proof.
  intros Hnone Ho Hc Hfail.
  pose proof (dataset_unopened self tid s Hnone) as Hd.
  destruct Hfail as [Hg | [crs [tr [Hg [Hp Hw]]]]].
  - rewrite (_open_geometry_raises self tid (log (Acquire DatasetLock) s) info e Ho Hc Hg)
      in Hd.
    eexists. split; [apply read_open_raises; exact Hd |].
    unfold after_native_open. simpl. repeat rewrite warnings_app. simpl.
    repeat rewrite app_nil_r. reflexivity.
  - rewrite (_open_warp_raises self tid (log (Acquire DatasetLock) s) info crs tr e
               Ho Hc Hg Hp Hw) in Hd.
    eexists. split; [apply read_open_raises; exact Hd |].
    unfold after_native_open. simpl. repeat rewrite warnings_app. simpl.
    repeat rewrite app_nil_r. reflexivity.
Qed.

(** ** Array lemmas *)

Lemma nth_error_combine {A B : Type} (l : list A) (l' : list B) (i : nat) (x : A) (y : B) :
  nth_error l i = Some x -> nth_error l' i = Some y ->
  nth_error (combine l l') i = Some (x, y).
Proof.
  revert l' i. induction l as [| a l IH]; intros l' i Hx Hy.
  - destruct i; discriminate.
  - destruct l' as [| b l']; [destruct i; discriminate |].
    destruct i as [| i]; simpl in *.
    + inversion Hx; inversion Hy; reflexivity.
    + apply IH; assumption.
Qed.

Lemma index_nth (a : ndarray num) (k i : nat) :
  i < size_of (tl (shape a)) ->
  nth_error (elems (index a k)) i = nth_error (elems a) (k * size_of (tl (shape a)) + i).
Proof.
  intros Hi. unfold index. simpl. rewrite nth_error_firstn.
  apply Nat.ltb_lt in Hi. rewrite Hi. apply nth_error_skipn.
Qed.

Lemma select_band_dtype (result band : ndarray num) :
  select_band result = Ok band -> arr_dtype band = arr_dtype result.
Proof.
  unfold select_band. destruct (shape result) as [| c rest]; [discriminate |].
  destruct (Nat.eqb c 2); [intros H; inversion H; reflexivity |].
  destruct (Nat.eqb c 1); [intros H; inversion H; reflexivity |].
  destruct (negb _); [discriminate |]. intros H; inversion H; reflexivity.
Qed.

(** What the post-processing does to the elements of a band when numpy
    accepts the operands that are used. *)
Lemma rescale_and_fill_elements self (band : ndarray num) scale offset mul add fill :
  scale_offset self = (scale, offset) ->
  (num_eqb scale num_one = false -> num_imul (arr_dtype band) scale = Ok mul) ->
  (num_eqb offset num_zero = false -> num_iadd (arr_dtype band) offset = Ok add) ->
  num_fill (arr_dtype band) (fill_value self) = Ok fill ->
  let rescaled v :=
    let v1 := if num_eqb scale num_one then v else mul v in
    if num_eqb offset num_zero then v1 else add v1 in
  rescale_and_fill self band
  = if issubdtype (arr_dtype band) (dtype self)
    then Ok {| shape := shape band;
               arr_dtype := arr_dtype band;
               elems := map (fun '(v, m) => (if (m : bool) then fill else rescaled v, false))
                            (elems band) |}
    else Raise (AssertionError [Lit "Expected result array with dtype ";
                                ReprDtype (dtype self); Lit ", got ";
                                ReprDtype (arr_dtype band)]).
Proof.
  intros Hso Hmul Hadd Hfill rescaled. subst rescaled.
  unfold rescale_and_fill. rewrite Hso. unfold imul, iadd, filled, inplace.
  destruct (num_eqb scale num_one) eqn:Es, (num_eqb offset num_zero) eqn:Eo; simpl;
    try rewrite (Hmul eq_refl); simpl; try rewrite (Hadd eq_refl); simpl;
    rewrite Hfill; simpl;
    destruct (issubdtype (arr_dtype band) (dtype self)); try reflexivity;
    f_equal; f_equal; rewrite ?map_map; apply map_ext; intros [v [|]]; reflexivity.
Qed.

(** An error of the arithmetic is the outcome of the post-processing. *)
Lemma rescale_and_fill_raises self (band : ndarray num) scale offset :
  scale_offset self = (scale, offset) ->
  num_eqb scale num_one = false ->
  num_eqb offset num_zero = false ->
  (forall e, num_imul (arr_dtype band) scale = Raise e ->
     rescale_and_fill self band = Raise e)
  /\ (forall mul e, num_imul (arr_dtype band) scale = Ok mul ->
        num_iadd (arr_dtype band) offset = Raise e ->
        rescale_and_fill self band = Raise e)
  /\ (forall mul add e, num_imul (arr_dtype band) scale = Ok mul ->
        num_iadd (arr_dtype band) offset = Ok add ->
        num_fill (arr_dtype band) (fill_value self) = Raise e ->
        rescale_and_fill self band = Raise e).
Proof.
  intros Hso Hs Ho. unfold rescale_and_fill. rewrite Hso, Hs, Ho.
  unfold imul, iadd, filled, inplace. simpl.
  split; [| split].
  - intros e He. rewrite He. reflexivity.
  - intros mul e Hm He. rewrite Hm. simpl. rewrite He. reflexivity.
  - intros mul add e Hm Ha He. rewrite Hm. simpl. rewrite Ha. simpl. rewrite He.
    reflexivity.
Qed.

(** ** Claims about reading *)

(** C2, as amended.  With scale [s <> 1] and offset [o <> 0], a read
    whose delegate returns an array of the requested dtype from which
    the reader extracts the masked band [band] multiplies and then adds
    in place, in that dtype.  When numpy accepts [s], [o] and the fill
    value for the dtype, the read returns a dense array of the shape of
    [band]: a position that holds the valid value [v] holds what the
    addition makes of what the multiplication makes of [v], and a
    position that is masked holds the fill value as cast to the dtype,
    neither scaled nor offset.  When numpy refuses one of the three, the
    read raises that error as it is, whatever the recognised-error set,
    and keeps the delegate. *)
Theorem C2_scaled_in_the_dtype_of_the_array
    self tid window s d self1 s1 result d' s2 band scale offset :
  dataset world self tid s = (Ok (d, self1), s1) ->
  delegate_read world d tid window (dtype self) s1 = (Ok result, d', s2) ->
  select_band result = Ok band ->
  arr_dtype result = dtype self ->
  scale_offset self = (scale, offset) ->
  num_eqb scale num_one = false ->
  num_eqb offset num_zero = false ->
  (forall mul add fill,
     num_imul (dtype self) scale = Ok mul ->
     num_iadd (dtype self) offset = Ok add ->
     num_fill (dtype self) (fill_value self) = Ok fill ->
     exists out,
       read world self tid window s = (Ok out, set_dataset self (Some d'), s2)
       /\ shape out = shape band
       /\ List.length (elems out) = List.length (elems band)
       /\ (forall i v, nth_error (elems band) i = Some (v, false) ->
             nth_error (elems out) i = Some (add (mul v), false))
       /\ (forall i v, nth_error (elems band) i = Some (v, true) ->
             nth_error (elems out) i = Some (fill, false)))
  /\ (forall e, num_imul (dtype self) scale = Raise e ->
        read world self tid window s = (Raise e, set_dataset self (Some d'), s2))
  /\ (forall mul e,
        num_imul (dtype self) scale = Ok mul ->
        num_iadd (dtype self) offset = Raise e ->
        read world self tid window s = (Raise e, set_dataset self (Some d'), s2))
  /\ (forall mul add e,
        num_imul (dtype self) scale = Ok mul ->
        num_iadd (dtype self) offset = Ok add ->
        num_fill (dtype self) (fill_value self) = Raise e ->
        read world self tid window s = (Raise e, set_dataset self (Some d'), s2)).
Proof.
  intros Hd Hr Hb Hdt Hso Hs Ho.
  rewrite (read_delegate_ok self tid window s d self1 s1 result d' s2 Hd Hr).
  unfold postprocess. rewrite Hb.
  assert (Hbd : arr_dtype band = dtype self)
    by (rewrite (select_band_dtype result band Hb); exact Hdt).
  destruct (rescale_and_fill_raises self band scale offset Hso Hs Ho)
    as [Hmul [Hadd Hfill]].
  rewrite Hbd in Hmul, Hadd, Hfill.
  split; [| split; [| split]].
  - intros mul add fill Hm Ha Hf.
    rewrite (rescale_and_fill_elements self band scale offset mul add fill Hso)
      by (rewrite Hbd; auto).
    unfold issubdtype. rewrite Hbd, String.eqb_refl, Hs, Ho.
    eexists. split; [reflexivity |]. simpl.
    split; [reflexivity |]. split; [apply length_map |].
    split; intros i v Hi; rewrite nth_error_map, Hi; reflexivity.
  - intros e He. rewrite (Hmul e He). reflexivity.
  - intros mul e Hm He. rewrite (Hadd mul e Hm He). reflexivity.
  - intros mul add e Hm Ha He. rewrite (Hfill mul add e Hm Ha He). reflexivity.
Qed.

(** C3, as amended.  After a successful delegate read whose result has
    a channel axis (it is not two-dimensional, as every rasterio read):
    with two channels the reader goes on with channel 0 masked by
    [channel 1 == 0], so that a position whose alpha is a valid zero is
    masked and a position whose alpha is valid and not zero keeps the
    mask channel 0 had; with one channel it goes on with that channel;
    with any other number of channels the call raises a [RuntimeError].
    A two-dimensional result whose first dimension is neither 1 nor 2
    is not taken for a stack of channels: the reader goes on with it as
    it is. *)
Theorem C3_channel_dispatch self tid window s d self1 s1 result d' s2 c rest :
  dataset world self tid s = (Ok (d, self1), s1) ->
  delegate_read world d tid window (dtype self) s1 = (Ok result, d', s2) ->
  shape result = c :: rest ->
  let outcome := fst (fst (read world self tid window s)) in
  let masked := masked_array (index result 0) (eq_zero (index result 1)) in
  (List.length rest <> 1 ->
     (c = 2 ->
        outcome = rescale_and_fill self masked
        /\ forall i v m0 a,
             i < size_of rest ->
             nth_error (elems result) i = Some (v, m0) ->
             nth_error (elems result) (size_of rest + i) = Some (a, false) ->
             nth_error (elems masked) i = Some (v, orb (num_eqb a num_zero) m0))
     /\ (c = 1 -> outcome = rescale_and_fill self (index result 0))
     /\ (c <> 1 -> c <> 2 -> exists msg, outcome = Raise (RuntimeError msg None)))
  /\ (List.length rest = 1 -> c <> 1 -> c <> 2 ->
        outcome = rescale_and_fill self result).
Proof.
  intros Hd Hr Hsh outcome masked. subst outcome.
  rewrite (read_delegate_ok self tid window s d self1 s1 result d' s2 Hd Hr).
  cbn [fst]. unfold postprocess, select_band. rewrite Hsh.
  split; [intros Hnd; split; [| split] |].
  - intros ->. split; [reflexivity |].
    intros i v m0 a Hi Hv Ha. subst masked. unfold masked_array, eq_zero.
    cbn [elems]. rewrite nth_error_map.
    assert (H0 : nth_error (elems (index result 0)) i = Some (v, m0)).
    { rewrite index_nth by (rewrite Hsh; exact Hi). simpl. exact Hv. }
    assert (H1 : nth_error (elems (index result 1)) i = Some (a, false)).
    { rewrite index_nth by (rewrite Hsh; exact Hi). rewrite Hsh. simpl.
      rewrite Nat.add_0_r. exact Ha. }
    rewrite (nth_error_combine _ _ i (v, m0) (num_eqb a num_zero) H0).
    + reflexivity.
    + rewrite nth_error_map, H1. reflexivity.
  - intros ->. reflexivity.
  - intros H1 H2.
    destruct (Nat.eqb c 2) eqn:E2; [apply Nat.eqb_eq in E2; contradiction |].
    destruct (Nat.eqb c 1) eqn:E1; [apply Nat.eqb_eq in E1; contradiction |].
    unfold ndim. rewrite Hsh. simpl.
    destruct (Nat.eqb (List.length rest) 1) eqn:E.
    + apply Nat.eqb_eq in E. contradiction.
    + simpl. eexists. reflexivity.
  - intros Hlen H1 H2.
    destruct (Nat.eqb c 2) eqn:E2; [apply Nat.eqb_eq in E2; contradiction |].
    destruct (Nat.eqb c 1) eqn:E1; [apply Nat.eqb_eq in E1; contradiction |].
    unfold ndim. rewrite Hsh. simpl. rewrite Hlen. reflexivity.
Qed.

(** C4.  When the delegate read raises [e]: if [errors_as_nodata]
    accepts [e] the call emits one warning and returns the buffer
    [nodata_for_window] builds, which has the shape of the window and
    holds the fill value everywhere; otherwise the call raises a
    [RuntimeError] from [e].  Either way the message names the locator
    and the window. *)
Theorem C4_read_failure self tid window s d self1 s1 e d' s2 :
  dataset world self tid s = (Ok (d, self1), s1) ->
  delegate_read world d tid window (dtype self) s1 = (Raise e, d', s2) ->
  let msg := read_error_msg self window e in
  let self' := set_dataset self (Some d') in
  (exception_matches e (errors_as_nodata self) = true ->
     exists buf,
       read world self tid window s = (Ok buf, self', log (Warn msg) s2)
       /\ shape buf = [height window; width window]
       /\ List.length (elems buf) = height window * width window
       /\ Forall (fun x => x = (fill_value self, false)) (elems buf))
  /\ (exception_matches e (errors_as_nodata self) = false ->
        read world self tid window s = (Raise (RuntimeError msg (Some e)), self', s2))
  /\ In (ReprStr (url self)) msg
  /\ In (StrWindow window) msg.
Proof.
  intros Hd Hr msg self'.
  pose proof (read_delegate_raises self tid window s d self1 s1 e d' s2 Hd Hr) as H.
  split; [| split; [| split]].
  - intros Hm. rewrite Hm in H. eexists. split; [exact H |].
    destruct (nodata_for_window_spec window (fill_value self) (dtype self))
      as [Hs [_ [Hl Hf]]].
    auto.
  - intros Hm. rewrite Hm in H. exact H.
  - simpl. auto.
  - simpl. auto.
Qed.

(** ** Delegates keep their identity *)

Lemma same_instance_refl d : same_instance d d.
Proof. destruct d; simpl; reflexivity. Qed.

Lemma same_instance_trans d1 d2 d3 :
  same_instance d1 d2 -> same_instance d2 d3 -> same_instance d1 d3.
Proof.
  destruct d1, d2, d3; simpl; try contradiction; intros H1 H2; congruence.
Qed.

Lemma set_dataset_same self d : _dataset self = Some d -> set_dataset self (Some d) = self.
Proof. intros H. destruct self; simpl in *; subst; reflexivity. Qed.

Lemma set_dataset_none_unopened self : _dataset self = None -> set_dataset self None = self.
Proof. intros H. destruct self; simpl in *; subst; reflexivity. Qed.

(** Brings a goal [trace s' = trace s ++ ?evs /\ reader_opens ?evs = n]
    about a computed state to an end. *)
Ltac close_trace :=
  simpl; repeat rewrite <- app_assoc; simpl;
  eexists; split; [reflexivity | reflexivity].

(** A delegate read changes at most the thread table of the delegate,
    not even that when the calling thread is already served, and never
    runs the reader's own open. *)
Lemma delegate_read_instance d tid window dt s r d' s' :
  delegate_read world d tid window dt s = (r, d', s') ->
  same_instance d d'
  /\ (thread_is_served d tid -> d' = d)
  /\ exists evs, trace s' = trace s ++ evs /\ reader_opens evs = 0.
Proof.
  destruct d as [nr | st | tl]; simpl.
  - intros H. inversion H; subst. simpl. repeat split; auto.
    exists []. rewrite app_nil_r. auto.
  - unfold st_read. unfold_monad. simpl.
    destruct (vrt_or_ds (st_ds st) (st_vrt st)); simpl;
      intros H; inversion H; subst; simpl; (repeat split; auto); close_trace.
  - unfold tl_read, tl_dataset, tl_open. unfold_monad. simpl.
    destruct (thread_attrs (tl_threadlocal tl) tid) as [[ds vrt] |] eqn:Hattrs; simpl.
    + destruct (vrt_or_ds ds vrt); simpl; intros H; inversion H; subst; simpl;
        (repeat split; auto); close_trace.
    + destruct (rio_open world (clock s) (tl_url tl) (Some (tl_driver tl))
                  (tl_open_options tl)) as [info | e]; simpl.
      * destruct (tl_vrt_params tl) as [params |]; simpl.
        -- destruct (rio_warp world (S (clock s)) info params) as [vi | e]; simpl;
             intros H; inversion H; subst; simpl;
             (split; [reflexivity | split; [intros Hs; contradiction |]]); close_trace.
        -- intros H; inversion H; subst; simpl.
           split; [reflexivity | split; [intros Hs; contradiction |]]. close_trace.
      * intros H; inversion H; subst; simpl.
        split; [reflexivity | split; [intros Hs; contradiction |]]. close_trace.
Qed.

(** Every run of [_open] contacts the resource exactly once on behalf
    of the reader. *)
Lemma _open_trace self tid s :
  exists evs,
    trace (snd (_open world self tid s)) = trace s ++ evs /\ reader_opens evs = 1.
Proof.
  unfold _open. unfold_monad. simpl.
  destruct (rio_open world (clock s) (url self) None []) as [info | e]; simpl.
  - destruct (Nat.eqb (ds_count info) 1); simpl; [| close_trace].
    destruct (current_geometry info) as [[crs tr] | e]; simpl; [| close_trace].
    destruct (vrt_params_eqb _ _); simpl.
    + destruct (in_allowlist _); close_trace.
    + destruct (rio_warp world _ _ _) as [vi | e]; simpl; [| close_trace].
      destruct (in_allowlist _); close_trace.
  - destruct (exception_matches e (errors_as_nodata self)); close_trace.
Qed.

(** [_open] itself takes and releases no lock. *)
Lemma _open_keeps_locks self tid s (l : Lock) :
  exists evs,
    trace (snd (_open world self tid s)) = trace s ++ evs /\ keeps_lock l evs = true.
Proof.
  unfold _open. unfold_monad. simpl.
  destruct (rio_open world (clock s) (url self) None []) as [info | e]; simpl.
  - destruct (Nat.eqb (ds_count info) 1); simpl; [| close_trace].
    destruct (current_geometry info) as [[crs tr] | e]; simpl; [| close_trace].
    destruct (vrt_params_eqb _ _); simpl.
    + destruct (in_allowlist _); close_trace.
    + destruct (rio_warp world _ _ _) as [vi | e]; simpl; [| close_trace].
      destruct (in_allowlist _); close_trace.
  - destruct (exception_matches e (errors_as_nodata self)); close_trace.
Qed.

(** A read on a reader that holds a delegate. *)
Lemma read_opened self d tid window s :
  _dataset self = Some d ->
  exists r d' s',
    read world self tid window s = (r, set_dataset self (Some d'), s')
    /\ same_instance d d'
    /\ (thread_is_served d tid -> d' = d)
    /\ exists evs, trace s' = trace s ++ evs /\ reader_opens evs = 0.
Proof.
  intros Hsome.
  pose proof (dataset_opened self d tid s Hsome) as Hd.
  destruct (delegate_read world d tid window (dtype self)
              (log (Release DatasetLock) (log (Acquire DatasetLock) s)))
    as [[r d'] s2] eqn:Hr.
  destruct (delegate_read_instance _ _ _ _ _ _ _ _ Hr) as [Hsame [Hserved [evs [Ht Hn]]]].
  simpl in Ht. rewrite <- !app_assoc in Ht. simpl in Ht.
  destruct r as [result | e].
  - rewrite (read_delegate_ok self tid window s d self _ result d' s2 Hd Hr).
    do 3 eexists. split; [reflexivity |]. split; [exact Hsame |].
    split; [exact Hserved |]. eexists. split; [exact Ht |]. simpl. exact Hn.
  - rewrite (read_delegate_raises self tid window s d self _ e d' s2 Hd Hr).
    destruct (exception_matches e (errors_as_nodata self)).
    + do 3 eexists. split; [reflexivity |]. split; [exact Hsame |].
      split; [exact Hserved |]. simpl. rewrite Ht. rewrite <- app_assoc.
      eexists. split; [reflexivity |]. simpl. rewrite reader_opens_app, Hn. reflexivity.
    + do 3 eexists. split; [reflexivity |]. split; [exact Hsame |].
      split; [exact Hserved |]. eexists. split; [exact Ht |]. simpl. exact Hn.
Qed.

(** C5.  A read-time failure that [errors_as_nodata] accepts degrades
    that call only.  The call returns the fill buffer and leaves the
    reader exactly as the failed delegate call left it: the constructor
    fields are untouched and [_dataset] still holds the same delegate
    (the reader is literally unchanged when it was already open and the
    calling thread already had its handle).  Nothing is memoised: the
    next read on that reader goes to the delegate again, and when the
    delegate answers with [result] the caller gets the post-processed
    [result], not a fill buffer. *)
Theorem C5_recognised_read_failure_is_per_call self tid window s d self1 s1 e d' s2 :
  dataset world self tid s = (Ok (d, self1), s1) ->
  delegate_read world d tid window (dtype self) s1 = (Raise e, d', s2) ->
  exception_matches e (errors_as_nodata self) = true ->
  exists buf self' s',
    read world self tid window s = (Ok buf, self', s')
    /\ self' = set_dataset self (Some d')
    /\ same_instance d d'
    /\ (_dataset self = Some d -> thread_is_served d tid -> self' = self)
    /\ (forall tid2 window2 result d'' s3,
          delegate_read world d' tid2 window2 (dtype self)
            (log (Release DatasetLock) (log (Acquire DatasetLock) s'))
          = (Ok result, d'', s3) ->
          read world self' tid2 window2 s'
          = (postprocess self result, set_dataset self (Some d''), s3)).
Proof.
  intros Hd Hr Hm.
  pose proof (read_delegate_raises self tid window s d self1 s1 e d' s2 Hd Hr) as H.
  rewrite Hm in H.
  destruct (delegate_read_instance _ _ _ _ _ _ _ _ Hr) as [Hsame [Hserved _]].
  do 3 eexists. split; [exact H |]. split; [reflexivity |]. split; [exact Hsame |].
  split.
  - intros Hsome Hs. rewrite (Hserved Hs). apply set_dataset_same. exact Hsome.
  - intros tid2 window2 result d'' s3 Hr2.
    set (self' := set_dataset self (Some d')).
    assert (Hsome' : _dataset self' = Some d') by reflexivity.
    pose proof (dataset_opened self' d' tid2
                  (log (Warn (read_error_msg self window e)) s2) Hsome') as Hd2.
    exact (read_delegate_ok self' tid2 window2 _ d' self' _ result d'' s3 Hd2 Hr2).
Qed.

(** ** One open per opened reader *)

Lemma read_unopened_trace self tid window s :
  _dataset self = None ->
  exists mid rest,
    trace (snd (read world self tid window s))
    = trace s ++ Acquire DatasetLock :: mid ++ Release DatasetLock :: rest
    /\ keeps_lock DatasetLock mid = true
    /\ reader_opens mid = 1
    /\ reader_opens rest = 0.
Proof.
  intros Hnone.
  pose proof (dataset_unopened self tid s Hnone) as Hd.
  destruct (_open_trace self tid (log (Acquire DatasetLock) s)) as [mid [Hmid Hone]].
  destruct (_open_keeps_locks self tid (log (Acquire DatasetLock) s) DatasetLock)
    as [mid' [Hmid' Hkeeps]].
  assert (mid' = mid) by (rewrite Hmid in Hmid'; exact (eq_sym (app_inv_head _ _ _ Hmid'))).
  subst mid'. clear Hmid'.
  destruct (_open world self tid (log (Acquire DatasetLock) s)) as [[d | e] s1] eqn:Hopen;
    simpl in Hmid.
  - destruct (delegate_read world d tid window (dtype self) (log (Release DatasetLock) s1))
      as [[r d'] s2] eqn:Hr.
    destruct (delegate_read_instance _ _ _ _ _ _ _ _ Hr) as [_ [_ [evs [Ht Hn]]]].
    simpl in Ht. rewrite Hmid in Ht. rewrite <- !app_assoc in Ht. simpl in Ht.
    destruct r as [result | e].
    + rewrite (read_delegate_ok self tid window s d _ _ result d' s2 Hd Hr). simpl.
      exists mid, evs. auto.
    + rewrite (read_delegate_raises self tid window s d _ _ e d' s2 Hd Hr).
      destruct (exception_matches e (errors_as_nodata self)); simpl.
      * exists mid, (evs ++ [Warn (read_error_msg self window e)]).
        rewrite Ht. rewrite <- !app_assoc. simpl. rewrite <- !app_assoc. simpl.
        split; [reflexivity |]. split; [exact Hkeeps |]. split; [exact Hone |].
        rewrite reader_opens_app, Hn. reflexivity.
      * exists mid, evs. auto.
  - rewrite (read_open_raises self tid window s e _ Hd). simpl.
    exists mid, []. rewrite Hmid. rewrite <- !app_assoc. simpl. auto.
Qed.

(** The first read of an unopened reader opens the resource once. *)
Lemma read_unopened_opens self tid window s :
  _dataset self = None ->
  reader_opens (trace (snd (read world self tid window s))) = reader_opens (trace s) + 1.
Proof.
  intros Hnone.
  destruct (read_unopened_trace self tid window s Hnone)
    as [mid [rest [Htrace [_ [Hmid Hrest]]]]].
  rewrite Htrace. rewrite reader_opens_app. simpl. rewrite reader_opens_app. simpl.
  lia.
Qed.

Lemma reads_opened self d calls s :
  _dataset self = Some d ->
  reader_opens (trace (snd (reads world self calls s))) = reader_opens (trace s)
  /\ exists d', _dataset (fst (reads world self calls s)) = Some d' /\ same_instance d d'.
Proof.
  revert self d s. induction calls as [| [tid window] calls IH]; intros self d s Hsome.
  - simpl. split; [reflexivity |]. exists d. split; [exact Hsome | apply same_instance_refl].
  - simpl.
    destruct (read_opened self d tid window s Hsome)
      as [r [d' [s' [Hread [Hsame [_ [evs [Ht Hn]]]]]]]].
    rewrite Hread.
    destruct (IH (set_dataset self (Some d')) d' s' eq_refl) as [Hcount [d'' [Hd'' Hs'']]].
    split.
    + rewrite Hcount, Ht, reader_opens_app, Hn. lia.
    + exists d''. split; [exact Hd'' | exact (same_instance_trans _ _ _ Hsame Hs'')].
Qed.

(** *** What [close] runs *)

Lemma closed_app (hs hs' : list nat) s : closed (hs ++ hs') s = closed hs' (closed hs s).
Proof. unfold closed. apply fold_left_app. Qed.

Lemma closed_trace (hs : list nat) s : trace (closed hs s) = trace s ++ map NativeClose hs.
Proof.
  revert s. induction hs as [| h hs IH]; intros s; simpl.
  - rewrite app_nil_r. reflexivity.
  - unfold closed in *. simpl. rewrite IH. simpl. rewrite <- app_assoc. reflexivity.
Qed.

Lemma closed_clock (hs : list nat) s : clock (closed hs s) = clock s + List.length hs.
Proof.
  revert s. induction hs as [| h hs IH]; intros s; simpl.
  - lia.
  - unfold closed in *. simpl. rewrite IH. simpl. lia.
Qed.

Lemma finalise_run (ds : Dataset num) (vrt : option (Vrt num)) s :
  finalise ds vrt s = (Ok tt, closed (handles_of ds vrt) s).
Proof. unfold finalise. unfold_monad. destruct vrt; reflexivity. Qed.

Lemma drop_threadlocal_run (tbl : list (nat * (Dataset num * option (Vrt num)))) s :
  drop_threadlocal tbl s = (Ok tt, closed (table_handles tbl) s).
Proof.
  revert s. induction tbl as [| [t [ds vrt]] tbl IH]; intros s; [reflexivity |].
  simpl. unfold bind. rewrite finalise_run, IH, closed_app. reflexivity.
Qed.

Lemma st_close_run (st : SingleThreadedRioDataset num) s :
  st_close st s
  = (Ok tt, log (Release HandleLock)
              (closed (handles_of (st_ds st) (st_vrt st)) (log (Acquire HandleLock) s))).
Proof. unfold st_close. unfold_monad. destruct (st_vrt st); reflexivity. Qed.

Lemma tl_close_run (tl : ThreadLocalRioDataset num) s :
  tl_close tl s
  = (Ok (set_threadlocal tl []),
     log (Release HandleLock)
       (closed (table_handles (tl_threadlocal tl)) (log (Acquire HandleLock) s))).
Proof.
  unfold tl_close, with_lock, with_ctx, bind, ret.
  rewrite drop_threadlocal_run. reflexivity.
Qed.

Lemma native_closes_closes (hs : list nat) : native_closes (map NativeClose hs) = hs.
Proof. induction hs as [| h hs IH]; simpl; [| rewrite IH]; reflexivity. Qed.

Lemma reader_opens_closes (hs : list nat) : reader_opens (map NativeClose hs) = 0.
Proof. induction hs as [| h hs IH]; simpl; [reflexivity | exact IH]. Qed.

(** [close] never raises, leaves the reader without a delegate, and its
    events are those of [close_events] between the acquisition and the
    release of [_dataset_lock]. *)
Lemma close_run self s :
  exists s1,
    close self s = (Ok (set_dataset self None), s1)
    /\ trace s1
       = trace s ++ Acquire DatasetLock :: close_events (_dataset self) ++ [Release DatasetLock].
Proof.
  unfold close, with_lock, with_ctx, bind, ret.
  destruct (_dataset self) as [[nr | st | tl] |] eqn:E; simpl.
  - eexists. split; [reflexivity |]. simpl. rewrite <- app_assoc. reflexivity.
  - unfold bind. rewrite st_close_run. unfold ret. simpl.
    unfold st_del, bind. rewrite st_close_run, finalise_run.
    eexists. split; [reflexivity |].
    repeat (first [rewrite closed_trace | rewrite <- app_assoc | progress simpl]).
    reflexivity.
  - unfold bind. rewrite tl_close_run. unfold ret. simpl.
    eexists. split; [reflexivity |].
    repeat (first [rewrite closed_trace | rewrite <- app_assoc | progress simpl]).
    reflexivity.
  - rewrite (set_dataset_none_unopened self E).
    eexists. split; [reflexivity |]. simpl. rewrite <- app_assoc. reflexivity.
Qed.

Lemma reader_opens_close_events (o : option (ThreadsafeRioDataset num)) :
  reader_opens (close_events o) = 0.
Proof.
  destruct o as [[nr | st | tl] |]; simpl; try reflexivity;
    repeat (rewrite ?reader_opens_app, ?reader_opens_closes; simpl); reflexivity.
Qed.

Lemma close_unopens self s :
  exists self' s',
    close self s = (Ok self', s')
    /\ _dataset self' = None
    /\ reader_opens (trace s') = reader_opens (trace s).
Proof.
  destruct (close_run self s) as [s1 [Hclose Htrace]].
  exists (set_dataset self None), s1. split; [exact Hclose |]. split; [reflexivity |].
  rewrite Htrace, reader_opens_app. simpl.
  rewrite reader_opens_app, reader_opens_close_events. simpl. lia.
Qed.

(** What an unopened reader holds after a read, when the open raised. *)
Lemma read_unopened_stores_nothing self tid window s :
  _dataset self = None ->
  _dataset (snd (fst (read world self tid window s))) = None ->
  exists e s1, dataset world self tid s = (Raise e, s1).
Proof.
  intros Hnone Hafter.
  destruct (dataset world self tid s) as [[[d self1] | e] s1] eqn:Hd.
  - exfalso.
    destruct (delegate_read world d tid window (dtype self) s1) as [[r d'] s2] eqn:Hr.
    destruct r as [result | e].
    + rewrite (read_delegate_ok self tid window s d self1 s1 result d' s2 Hd Hr) in Hafter.
      discriminate.
    + rewrite (read_delegate_raises self tid window s d self1 s1 e d' s2 Hd Hr) in Hafter.
      destruct (exception_matches e (errors_as_nodata self)); discriminate.
  - exists e, s1. reflexivity.
Qed.

(** C8, as amended.  Construction performs no I/O and leaves the reader
    without a delegate; [close] on any reader opens nothing and leaves
    it without a delegate, so that the first read after it opens the
    resource again.  The first read of a reader without a delegate runs
    [_open] once, and the open lies between the acquisition of
    [_dataset_lock] and its release, with no release in between.  If
    the open raises, the read raises the same error and stores nothing,
    so the next read of that reader opens the resource again; a read
    leaves no delegate only in that case.  If the read leaves a delegate
    in [_dataset], no later read of any thread opens the resource for
    the reader again, and each of them goes to that same delegate. *)
Theorem C8_one_open_while_opened self tid window calls s :
  _dataset self = None ->
  let first := read world self tid window s in
  (forall u sp rs dt fv so env errs,
     _dataset (__init__ u sp rs dt fv so env errs : AutoParallelRioReader num) = None)
  /\ (forall r s0,
        exists s1,
          close r s0 = (Ok (set_dataset r None), s1)
          /\ reader_opens (trace s1) = reader_opens (trace s0)
          /\ forall tid2 window2,
               reader_opens (trace (snd (read world (set_dataset r None) tid2 window2 s1)))
               = reader_opens (trace s1) + 1)
  /\ (exists mid rest,
        trace (snd first)
        = trace s ++ Acquire DatasetLock :: mid ++ Release DatasetLock :: rest
        /\ keeps_lock DatasetLock mid = true
        /\ reader_opens mid = 1
        /\ reader_opens rest = 0)
  /\ (forall e s1,
        dataset world self tid s = (Raise e, s1) ->
        first = (Raise e, self, s1)
        /\ forall tid2 window2,
             reader_opens (trace (snd (read world self tid2 window2 s1)))
             = reader_opens (trace s1) + 1)
  /\ (_dataset (snd (fst first)) = None ->
        exists e s1, dataset world self tid s = (Raise e, s1))
  /\ (forall d,
        _dataset (snd (fst first)) = Some d ->
        let after := reads world (snd (fst first)) calls (snd first) in
        reader_opens (trace (snd after)) = reader_opens (trace (snd first))
        /\ exists d', _dataset (fst after) = Some d' /\ same_instance d d').
Proof.
  intros Hnone first. subst first. split; [reflexivity |].
  split.
  { intros r s0. destruct (close_run r s0) as [s1 [Hclose Htrace]].
    exists s1. split; [exact Hclose |]. split.
    - rewrite Htrace, reader_opens_app. simpl.
      rewrite reader_opens_app, reader_opens_close_events. simpl. lia.
    - intros tid2 window2. apply read_unopened_opens. reflexivity. }
  split; [apply read_unopened_trace; exact Hnone |].
  split.
  { intros e s1 Hd. split; [apply read_open_raises; exact Hd |].
    intros tid2 window2. apply read_unopened_opens. exact Hnone. }
  split; [apply read_unopened_stores_nothing; exact Hnone |].
  intros d Hsome after. subst after. apply reads_opened. exact Hsome.
Qed.

(** ** Pickling *)

(** In a stationary world the outcome of a read on an unopened reader
    depends neither on the moment of the call nor on the calling thread. *)
Lemma read_unopened_stationary self tid tid' window s s' :
  stationary world ->
  _dataset self = None ->
  fst (fst (read world self tid window s)) = fst (fst (read world self tid' window s')).
Proof.
  intros [Hopen [Hwarp Hread]] Hnone.
  unfold read, dataset, _open. unfold_monad. rewrite Hnone. simpl.
  rewrite (Hopen (clock s) 0), (Hopen (clock s') 0).
  destruct (rio_open world 0 (url self) None []) as [info | e]; simpl.
  - destruct (Nat.eqb (ds_count info) 1); simpl; [| reflexivity].
    destruct (current_geometry info) as [[crs tr] | e]; simpl; [| reflexivity].
    destruct (vrt_params_eqb _ _); simpl.
    + destruct (in_allowlist _); simpl.
      * unfold tl_read, tl_dataset. unfold_monad. simpl. rewrite !Nat.eqb_refl. simpl.
        rewrite (Hread (S (clock s)) 0), (Hread (S (clock s')) 0).
        destruct (rio_read world 0 _ _ _ _); simpl;
          [reflexivity | destruct (exception_matches _ _); reflexivity].
      * unfold st_read. unfold_monad. simpl.
        rewrite (Hread (S (clock s)) 0), (Hread (S (clock s')) 0).
        destruct (rio_read world 0 _ _ _ _); simpl;
          [reflexivity | destruct (exception_matches _ _); reflexivity].
    + rewrite (Hwarp (S (clock s)) 0), (Hwarp (S (clock s')) 0).
      destruct (rio_warp world 0 _ _) as [vi | e]; simpl; [| reflexivity].
      destruct (in_allowlist _); simpl.
      * unfold tl_read, tl_dataset. unfold_monad. simpl. rewrite !Nat.eqb_refl. simpl.
        rewrite (Hread (S (S (clock s))) 0), (Hread (S (S (clock s'))) 0).
        destruct (rio_read world 0 _ _ _ _); simpl;
          [reflexivity | destruct (exception_matches _ _); reflexivity].
      * unfold st_read. unfold_monad. simpl.
        rewrite (Hread (S (S (clock s))) 0), (Hread (S (S (clock s'))) 0).
        destruct (rio_read world 0 _ _ _ _); simpl;
          [reflexivity | destruct (exception_matches _ _); reflexivity].
  - destruct (exception_matches e (errors_as_nodata self)); reflexivity.
Qed.

(** The thread that runs [_open] is served by the delegate it gets. *)
Lemma _open_serves self tid s d s' :
  _open world self tid s = (Ok d, s') -> thread_is_served d tid.
Proof.
  unfold _open. unfold_monad. simpl.
  destruct (rio_open world (clock s) (url self) None []) as [info | e]; simpl.
  - destruct (Nat.eqb (ds_count info) 1); simpl; [| discriminate].
    destruct (current_geometry info) as [[crs tr] | e]; simpl; [| discriminate].
    destruct (vrt_params_eqb _ _); simpl.
    + destruct (in_allowlist _); intros H; inversion H; subst; simpl; auto.
      rewrite Nat.eqb_refl. discriminate.
    + destruct (rio_warp world _ _ _) as [vi | e]; simpl; [| discriminate].
      destruct (in_allowlist _); intros H; inversion H; subst; simpl; auto.
      rewrite Nat.eqb_refl. discriminate.
  - destruct (exception_matches e (errors_as_nodata self)); intros H; inversion H; subst.
    simpl. auto.
Qed.

(** What the first read leaves in an unopened reader: nothing when the
    open raised, the delegate [_open] returned otherwise. *)
Lemma read_unopened_leaves self tid window s :
  _dataset self = None ->
  snd (fst (read world self tid window s)) = self
  \/ exists d sa sb,
       _open world self tid sa = (Ok d, sb)
       /\ snd (fst (read world self tid window s)) = set_dataset self (Some d).
Proof.
  intros Hnone.
  pose proof (dataset_unopened self tid s Hnone) as Hd.
  destruct (_open world self tid (log (Acquire DatasetLock) s)) as [[d | e] s1] eqn:Hopen.
  - right. exists d, (log (Acquire DatasetLock) s), s1. split; [exact Hopen |].
    destruct (delegate_read world d tid window (dtype self) (log (Release DatasetLock) s1))
      as [[r d'] s2] eqn:Hr.
    destruct (delegate_read_instance _ _ _ _ _ _ _ _ Hr) as [_ [Hserved _]].
    rewrite (Hserved (_open_serves _ _ _ _ _ Hopen)) in Hr.
    destruct r as [result | e].
    + rewrite (read_delegate_ok self tid window s d _ _ result d s2 Hd Hr). reflexivity.
    + rewrite (read_delegate_raises self tid window s d _ _ e d s2 Hd Hr).
      destruct (exception_matches e (errors_as_nodata self)); reflexivity.
  - left. rewrite (read_open_raises self tid window s e _ Hd). reflexivity.
Qed.

(** In a stationary world a read through the delegate some earlier
    [_open] of the calling thread returned has the outcome of a read that
    opens afresh. *)
Lemma read_cached_stationary self tid tid' window sa sb d s s' :
  stationary world ->
  _dataset self = None ->
  _open world self tid sa = (Ok d, sb) ->
  fst (fst (read world (set_dataset self (Some d)) tid window s))
  = fst (fst (read world self tid' window s')).
Proof.
  intros [Hopen [Hwarp Hread]] Hnone.
  assert (Ho : forall t u drv o, rio_open world t u drv o = rio_open world 0 u drv o)
    by (intros; apply Hopen).
  assert (Hw : forall t i k, rio_warp world t i k = rio_warp world 0 i k)
    by (intros; apply Hwarp).
  assert (Hr : forall t i k w dt, rio_read world t i k w dt = rio_read world 0 i k w dt)
    by (intros; apply Hread).
  unfold read, dataset, _open. unfold_monad. rewrite Hnone. simpl.
  rewrite (Ho (clock sa)), (Ho (clock s')).
  destruct (rio_open world 0 (url self) None []) as [info | e]; simpl.
  - destruct (Nat.eqb (ds_count info) 1); simpl; [| discriminate].
    destruct (current_geometry info) as [[crs tr] | e]; simpl; [| discriminate].
    destruct (vrt_params_eqb _ _); simpl.
    + destruct (in_allowlist _); simpl; intros H; inversion H; subst; simpl.
      * unfold tl_read, tl_dataset. unfold_monad. simpl. rewrite !Nat.eqb_refl. simpl.
        rewrite (Hr (clock s)), (Hr (S (clock s'))).
        destruct (rio_read world 0 _ _ _ _); simpl;
          [reflexivity | destruct (exception_matches _ _); reflexivity].
      * unfold st_read. unfold_monad. simpl.
        rewrite (Hr (clock s)), (Hr (S (clock s'))).
        destruct (rio_read world 0 _ _ _ _); simpl;
          [reflexivity | destruct (exception_matches _ _); reflexivity].
    + rewrite (Hw (S (clock sa))), (Hw (S (clock s'))).
      destruct (rio_warp world 0 _ _) as [vi | e]; simpl; [| discriminate].
      destruct (in_allowlist _); simpl; intros H; inversion H; subst; simpl.
      * unfold tl_read, tl_dataset. unfold_monad. simpl. rewrite !Nat.eqb_refl. simpl.
        rewrite (Hr (clock s)), (Hr (S (S (clock s')))).
        destruct (rio_read world 0 _ _ _ _); simpl;
          [reflexivity | destruct (exception_matches _ _); reflexivity].
      * unfold st_read. unfold_monad. simpl.
        rewrite (Hr (clock s)), (Hr (S (S (clock s')))).
        destruct (rio_read world 0 _ _ _ _); simpl;
          [reflexivity | destruct (exception_matches _ _); reflexivity].
  - destruct (exception_matches e (errors_as_nodata self)); simpl;
      intros H; inversion H; subst; reflexivity.
Qed.

(** Reads by a thread the delegate already serves leave the reader as
    it is. *)
Lemma reads_served_fixed self d tid windows s :
  _dataset self = Some d ->
  thread_is_served d tid ->
  fst (reads world self (map (pair tid) windows) s) = self.
Proof.
  intros Hsome Hserved. revert s.
  induction windows as [| window windows IH]; intros s; [reflexivity |].
  simpl.
  destruct (read_opened self d tid window s Hsome) as [r [d' [s' [Hread [_ [Hfix _]]]]]].
  rewrite Hread, (Hfix Hserved), (set_dataset_same self d Hsome). apply IH.
Qed.

(** What a run of reads by one thread leaves in a reader that was
    unopened: nothing, or the delegate one of its opens returned. *)
Lemma reads_unopened_leave self tid windows s :
  _dataset self = None ->
  fst (reads world self (map (pair tid) windows) s) = self
  \/ exists d sa sb,
       _open world self tid sa = (Ok d, sb)
       /\ fst (reads world self (map (pair tid) windows) s) = set_dataset self (Some d).
Proof.
  intros Hnone. revert s.
  induction windows as [| window windows IH]; intros s; [left; reflexivity |].
  simpl.
  destruct (read world self tid window s) as [[r self1] s1] eqn:Hread.
  destruct (read_unopened_leaves self tid window s Hnone)
    as [Hsame | [d [sa [sb [Hopen Hused]]]]]; rewrite Hread in *; simpl in *; subst self1.
  - apply IH.
  - right. exists d, sa, sb. split; [exact Hopen |].
    apply (reads_served_fixed (set_dataset self (Some d)) d tid windows s1 eq_refl).
    exact (_open_serves _ _ _ _ _ Hopen).
Qed.

(** C9.  Rebuilding any reader [r] from its pickle state gives a reader
    with the eight constructor fields of [r] and no delegate.  While the
    resource stays as it is, a read of a window through the rebuilt
    reader, by whichever thread and at whichever moment, has the outcome
    of that read through the original, be the original still unopened
    ([self]) or already used by its thread for any run of reads
    ([used]). *)
Theorem C9_pickle_round_trip r self tid tid' windows window s0 s s' :
  stationary world ->
  _dataset self = None ->
  let rebuilt x := __setstate__ (__getstate__ x) in
  let used := fst (reads world self (map (pair tid) windows) s0) in
  (url (rebuilt r) = url r /\ spec (rebuilt r) = spec r
   /\ resampling (rebuilt r) = resampling r /\ dtype (rebuilt r) = dtype r
   /\ fill_value (rebuilt r) = fill_value r /\ scale_offset (rebuilt r) = scale_offset r
   /\ gdal_env (rebuilt r) = gdal_env r
   /\ errors_as_nodata (rebuilt r) = errors_as_nodata r)
  /\ _dataset (rebuilt r) = None
  /\ fst (fst (read world (rebuilt self) tid' window s'))
     = fst (fst (read world self tid window s))
  /\ fst (fst (read world (rebuilt used) tid' window s'))
     = fst (fst (read world used tid window s)).
Proof.
  intros Hstat Hnone rebuilt used.
  assert (Hrebuilt : forall x, rebuilt x = set_dataset x None) by reflexivity.
  split; [repeat split |]. split; [reflexivity |].
  assert (Hself : rebuilt self = self).
  { rewrite Hrebuilt. destruct self; simpl in *; subst; reflexivity. }
  split.
  - rewrite Hself. apply read_unopened_stationary; assumption.
  - destruct (reads_unopened_leave self tid windows s0 Hnone)
      as [Hsame | [d [sa [sb [Hopen Hused]]]]]; fold used in Hsame || fold used in Hused.
    + rewrite Hsame, Hself. apply read_unopened_stationary; assumption.
    + rewrite Hused.
      replace (rebuilt (set_dataset self (Some d))) with self
        by (rewrite Hrebuilt; destruct self; simpl in *; subst; reflexivity).
      symmetry. apply (read_cached_stationary self tid tid' window sa sb d s s'); assumption.
Qed.

(** ** The degraded reader *)

Lemma rescale_and_fill_ok self (band : ndarray num) mul add fill :
  arr_dtype band = dtype self ->
  (num_eqb (fst (scale_offset self)) num_one = false ->
     num_imul (dtype self) (fst (scale_offset self)) = Ok mul) ->
  (num_eqb (snd (scale_offset self)) num_zero = false ->
     num_iadd (dtype self) (snd (scale_offset self)) = Ok add) ->
  num_fill (dtype self) (fill_value self) = Ok fill ->
  exists out, rescale_and_fill self band = Ok out /\ shape out = shape band.
Proof.
  intros Hdt Hmul Hadd Hfill. destruct (scale_offset self) as [scale offset] eqn:Hso.
  simpl in Hmul, Hadd. rewrite <- Hdt in Hmul, Hadd, Hfill.
  rewrite (rescale_and_fill_elements self band scale offset mul add fill Hso Hmul Hadd Hfill).
  unfold issubdtype. rewrite Hdt, String.eqb_refl. eexists. split; reflexivity.
Qed.

(** A read through the synthetic delegate leaves the reader as it is,
    and returns when numpy accepts the scale, the offset and the fill
    value for the dtype of the reader. *)
Lemma degraded_read_returns self nr tid window s mul add fill :
  _dataset self = Some (Nodata nr) ->
  nr_dtype nr = dtype self ->
  (num_eqb (fst (scale_offset self)) num_one = false ->
     num_imul (dtype self) (fst (scale_offset self)) = Ok mul) ->
  (num_eqb (snd (scale_offset self)) num_zero = false ->
     num_iadd (dtype self) (snd (scale_offset self)) = Ok add) ->
  num_fill (dtype self) (fill_value self) = Ok fill ->
  exists out s', read world self tid window s = (Ok out, self, s').
Proof.
  intros Hsome Hdt Hmul Hadd Hfill.
  pose proof (dataset_opened self (Nodata nr) tid s Hsome) as Hd.
  rewrite (read_delegate_ok self tid window s (Nodata nr) self _
             (nodata_read nr window) (Nodata nr) _ Hd eq_refl).
  rewrite (set_dataset_same self (Nodata nr) Hsome).
  assert (Hpost : exists out, postprocess self (nodata_read nr window) = Ok out).
  { unfold postprocess, select_band, nodata_read, nodata_for_window, full, ndim.
    cbn [shape List.length].
    destruct (Nat.eqb (height window) 2);
      [| destruct (Nat.eqb (height window) 1)]; simpl.
    - destruct (rescale_and_fill_ok self
                  (masked_array (index (full [height window; width window]
                                          (nr_fill_value nr) (nr_dtype nr)) 0)
                     (eq_zero (index (full [height window; width window]
                                        (nr_fill_value nr) (nr_dtype nr)) 1)))
                  mul add fill Hdt Hmul Hadd Hfill)
        as [out [Hout _]].
      exists out. exact Hout.
    - destruct (rescale_and_fill_ok self
                  (index (full [height window; width window]
                            (nr_fill_value nr) (nr_dtype nr)) 0)
                  mul add fill Hdt Hmul Hadd Hfill)
        as [out [Hout _]].
      exists out. exact Hout.
    - destruct (rescale_and_fill_ok self
                  (full [height window; width window] (nr_fill_value nr) (nr_dtype nr))
                  mul add fill Hdt Hmul Hadd Hfill) as [out [Hout _]].
      exists out. exact Hout. }
  destruct Hpost as [out Hout]. rewrite Hout. eauto.
Qed.

End Properties.

(** * The claims at concrete inputs *)

(** C1.  What the code does for a reader whose open raised a recognised
    error.  With a window of two rows the 7-filled buffer of shape
    [(2, 3)] the synthetic delegate returns is taken for data plus
    alpha and comes back with shape [(3,)], also on a later read of the
    same reader; with scale 2 and offset 1 the buffer comes back holding
    15 instead of the fill value 7. *)
Theorem C1_degraded_read_at_failing_inputs :
  let flat := {| shape := [3]; arr_dtype := "int16";
                 elems := [(7%Z, false); (7%Z, false); (7%Z, false)] |} in
  let scaled := {| shape := [3; 1]; arr_dtype := "int16";
                   elems := [(15%Z, false); (15%Z, false); (15%Z, false)] |} in
  let first := read unreachable_world (tolerant_reader 1 0) 0 (window_of 3 3) fresh_sys in
  fst (fst (read unreachable_world (tolerant_reader 1 0) 0 (window_of 2 3) fresh_sys))
  = Ok flat
  /\ fst (fst (read unreachable_world (snd (fst first)) 0 (window_of 2 3) (snd first)))
     = Ok flat
  /\ fst (fst (read unreachable_world (tolerant_reader 2 1) 0 (window_of 3 1) fresh_sys))
     = Ok scaled.
Proof.
  repeat split; vm_compute; reflexivity.
Qed.

(** C3, as stated, fails: the delegate of a degraded reader answers a
    window of three rows with an array whose first dimension is 3,
    neither one channel nor two, and the call returns. *)
Lemma C3_three_rows_do_not_raise :
  exists d self1 s1 result d' s2 out,
    dataset unreachable_world (tolerant_reader 1 0) 0 fresh_sys = (Ok (d, self1), s1)
    /\ delegate_read unreachable_world d 0 (window_of 3 2) "int16" s1 = (Ok result, d', s2)
    /\ shape result = [3; 2]
    /\ fst (fst (read unreachable_world (tolerant_reader 1 0) 0 (window_of 3 2) fresh_sys))
       = Ok out.
Proof.
  do 7 eexists. split; [lazy; reflexivity |]. split; [lazy; reflexivity |].
  split; [reflexivity |]. lazy. reflexivity.
Qed.

(** C2, as stated, fails: a GeoTIFF of [int16] pixels is opened and
    read, the band holds the valid value 20000, scale is 2 and offset
    is 1, and the read returns -25535 at that position, not 40001: the
    product wraps around in the dtype of the array. *)
Lemma C2_int16_product_wraps :
  let world := steady_world (scene_info "GTiff" 1) bright_band in
  exists d self1 s1 d' s2 band out,
    dataset world (tolerant_reader 2 1) 0 fresh_sys = (Ok (d, self1), s1)
    /\ delegate_read world d 0 (window_of 1 2) "int16" s1 = (Ok bright_band, d', s2)
    /\ select_band bright_band = Ok band
    /\ nth_error (elems band) 0 = Some (20000%Z, false)
    /\ fst (fst (read world (tolerant_reader 2 1) 0 (window_of 1 2) fresh_sys)) = Ok out
    /\ nth_error (elems out) 0 = Some ((-25535)%Z, false)
    /\ (-25535)%Z <> (20000 * 2 + 1)%Z.
Proof.
  do 7 eexists. split; [lazy; reflexivity |]. split; [lazy; reflexivity |].
  split; [lazy; reflexivity |]. split; [reflexivity |].
  split; [vm_compute; reflexivity |]. split; [reflexivity | discriminate].
Qed.

(** C8, as stated, fails: a reader on a two-band resource is never
    closed and yet opens the resource on each of its two reads. *)
Lemma C8_two_band_resource_opened_twice :
  let world := steady_world (scene_info "GTiff" 2) one_band in
  let run := reads world (strict_reader 1 0)
               [(0, window_of 1 2); (0, window_of 1 2)] fresh_sys in
  _dataset (strict_reader 1 0) = None
  /\ reader_opens (trace (snd run)) = 2
  /\ ~ reader_opens (trace (snd run)) <= 1.
Proof.
  vm_compute. split; [reflexivity |]. split; [reflexivity |]. intros H.
  inversion H as [| n H1]. inversion H1.
Qed.

Ltac by_evaluation := try (lazy; reflexivity); try (simpl; lia).

Lemma C2_witness :
  exists out self' s',
    read (steady_world (scene_info "GTiff" 1) one_band) (tolerant_reader 2 1) 0
      (window_of 1 2) fresh_sys = (Ok out, self', s')
    /\ nth_error (elems out) 0 = Some (11%Z, false)
    /\ nth_error (elems out) 1 = Some (7%Z, false).
Proof.
  edestruct (C2_scaled_in_the_dtype_of_the_array
               (steady_world (scene_info "GTiff" 1) one_band) (tolerant_reader 2 1) 0
               (window_of 1 2) fresh_sys)
    as [Hok _].
  1-7: by_evaluation.
  edestruct Hok as [out [Hread [_ [_ [Hvalid Hmasked]]]]].
  1-3: reflexivity.
  exists out. do 2 eexists. split; [exact Hread |]. split.
  - apply (Hvalid 0 5%Z). reflexivity.
  - apply (Hmasked 1 0%Z). reflexivity.
Defined.

Lemma C3_witness :
  (exists msg,
     fst (fst (read (steady_world (scene_info "HDF5" 1) three_bands) (tolerant_reader 2 1) 0
                 (window_of 1 1) fresh_sys))
     = Raise (RuntimeError msg None))
  /\ fst (fst (read (steady_world (scene_info "HDF5" 1) data_and_alpha)
                 (tolerant_reader 1 0) 0 (window_of 1 2) fresh_sys))
     = Ok {| shape := [1; 2]; arr_dtype := "int16";
             elems := [(5%Z, false); (7%Z, false)] |}.
Proof.
  split.
  - edestruct (C3_channel_dispatch
                 (steady_world (scene_info "HDF5" 1) three_bands) (tolerant_reader 2 1) 0
                 (window_of 1 1) fresh_sys)
      as [Hchannels _].
    1-3: by_evaluation.
    destruct (Hchannels ltac:(simpl; lia)) as [_ [_ Hother]].
    apply Hother; lia.
  - edestruct (C3_channel_dispatch
                 (steady_world (scene_info "HDF5" 1) data_and_alpha) (tolerant_reader 1 0) 0
                 (window_of 1 2) fresh_sys)
      as [Hchannels _].
    1-3: by_evaluation.
    destruct (Hchannels ltac:(simpl; lia)) as [Htwo _].
    destruct (Htwo eq_refl) as [Hout _]. rewrite Hout. reflexivity.
Defined.

Lemma C4_witness :
  (exists buf self' s',
     read (unreadable_world (scene_info "HDF5" 1)) (tolerant_reader 2 1) 0
       (window_of 2 3) fresh_sys = (Ok buf, self', s')
     /\ shape buf = [2; 3]
     /\ Forall (fun x => x = (7%Z, false)) (elems buf))
  /\ (exists msg self' s',
        read (unreadable_world (scene_info "HDF5" 1)) (strict_reader 2 1) 0
          (window_of 2 3) fresh_sys = (Raise (RuntimeError msg (Some not_found)), self', s')
        /\ In (ReprStr "s3://bucket/scene.tif") msg
        /\ In (StrWindow (window_of 2 3)) msg).
Proof.
  split.
  - edestruct (C4_read_failure
                 (unreadable_world (scene_info "HDF5" 1)) (tolerant_reader 2 1) 0
                 (window_of 2 3) fresh_sys)
      as [Hrec _].
    1-2: by_evaluation.
    destruct (Hrec eq_refl) as [buf [Hread [Hshape [_ Hfill]]]].
    exists buf. do 2 eexists. split; [exact Hread |]. split; [exact Hshape | exact Hfill].
  - edestruct (C4_read_failure
                 (unreadable_world (scene_info "HDF5" 1)) (strict_reader 2 1) 0
                 (window_of 2 3) fresh_sys)
      as [_ [Hfatal [Hurl Hwin]]].
    1-2: by_evaluation.
    do 3 eexists. split; [exact (Hfatal eq_refl) |]. split; [exact Hurl | exact Hwin].
Defined.

Lemma C5_witness :
  let world := flaky_world (scene_info "HDF5" 1) one_band in
  exists buf self' s',
    read world (tolerant_reader 1 0) 0 (window_of 1 2) fresh_sys = (Ok buf, self', s')
    /\ _dataset self' <> None
    /\ fst (fst (read world self' 0 (window_of 1 2) s'))
       = Ok {| shape := [1; 2]; arr_dtype := "int16";
               elems := [(5%Z, false); (7%Z, false)] |}.
Proof.
  intros world.
  edestruct (C5_recognised_read_failure_is_per_call
               world (tolerant_reader 1 0) 0 (window_of 1 2) fresh_sys)
    as [buf [self' [s' [Hread [Hself [_ [_ Hnext]]]]]]].
  1-3: by_evaluation.
  exists buf, self', s'. split; [exact Hread |].
  split; [rewrite Hself; discriminate |].
  clear Hself. lazy in Hread. inversion Hread. subst buf self' s'.
  erewrite Hnext by (lazy; reflexivity). reflexivity.
Defined.

Lemma C6_witness :
  exists s',
    read (steady_world (scene_info "GTiff" 2) one_band) (tolerant_reader 1 0) 0
      (window_of 1 2) fresh_sys
    = (Raise (RuntimeError (band_count_msg (tolerant_reader 1 0) 2) None),
       tolerant_reader 1 0, s')
    /\ trace s' = [Acquire DatasetLock; EnvEnter ScopeOpen;
                   NativeOpen "s3://bucket/scene.tif" None; NativeClose 0;
                   EnvExit ScopeOpen; Release DatasetLock].
Proof.
  edestruct (C6_band_count_is_fatal
               (steady_world (scene_info "GTiff" 2) one_band) (tolerant_reader 1 0) 0
               (window_of 1 2) fresh_sys (scene_info "GTiff" 2))
    as [s' [Hread [_ [_ Htrace]]]].
  1-3: by_evaluation.
  exists s'. split; [exact Hread | exact Htrace].
Defined.

Lemma C7_witness :
  (exists d s' tl,
     _open (steady_world (scene_info "GTiff" 1) one_band) (tolerant_reader 1 0) 0 fresh_sys
     = (Ok d, s') /\ d = ThreadLocal tl)
  /\ (exists d s' st,
        _open (steady_world (scene_info "HDF5" 1) one_band) (tolerant_reader 1 0) 0 fresh_sys
        = (Ok d, s') /\ d = SingleThreaded st).
Proof.
  split.
  - edestruct (C7_strategy_by_driver
                 (steady_world (scene_info "GTiff" 1) one_band) (tolerant_reader 1 0) 0
                 fresh_sys (scene_info "GTiff" 1))
      as [Hin _].
    1-2: by_evaluation.
    destruct (Hin ltac:(simpl; auto)) as [tl Htl].
    do 2 eexists. exists tl. split; [reflexivity | exact Htl].
  - edestruct (C7_strategy_by_driver
                 (steady_world (scene_info "HDF5" 1) one_band) (tolerant_reader 1 0) 0
                 fresh_sys (scene_info "HDF5" 1))
      as [_ Hout].
    1-2: by_evaluation.
    destruct (Hout ltac:(simpl; intros [H | []]; discriminate)) as [st Hst].
    do 2 eexists. exists st. split; [reflexivity | exact Hst].
Defined.

Lemma C8_witness :
  let world := steady_world (scene_info "GTiff" 1) one_band in
  let first := read world (tolerant_reader 1 0) 0 (window_of 1 2) fresh_sys in
  let after := reads world (snd (fst first))
                 [(1, window_of 1 2); (0, window_of 1 1); (2, window_of 1 2)]
                 (snd first) in
  reader_opens (trace (snd first)) = 1
  /\ reader_opens (trace (snd after)) = 1
  /\ _dataset (fst after) <> None
  /\ exists s1,
       close (fst after) (snd after) = (Ok (set_dataset (fst after) None), s1)
       /\ reader_opens (trace s1) = 1
       /\ reader_opens
            (trace (snd (read world (set_dataset (fst after) None) 1 (window_of 1 2) s1)))
          = 2.
Proof.
  intros world first after.
  destruct (C8_one_open_while_opened world (tolerant_reader 1 0) 0 (window_of 1 2)
              [(1, window_of 1 2); (0, window_of 1 1); (2, window_of 1 2)] fresh_sys
              eq_refl)
    as [_ [Hclose [_ [_ [_ Hafter]]]]].
  edestruct Hafter as [Hcount [d' [Hd' _]]]; [lazy; reflexivity |].
  fold first in Hcount, Hd'. fold after in Hcount, Hd'.
  assert (Hfirst : reader_opens (trace (snd first)) = 1) by reflexivity.
  split; [exact Hfirst |]. split; [rewrite Hcount; exact Hfirst |].
  split; [rewrite Hd'; discriminate |].
  destruct (Hclose (fst after) (snd after)) as [s1 [Hrun [Hsame Hnext]]].
  exists s1. split; [exact Hrun |]. split.
  - rewrite Hsame, Hcount. exact Hfirst.
  - rewrite (Hnext 1 (window_of 1 2)), Hsame, Hcount, Hfirst. reflexivity.
Defined.

Lemma C9_witness :
  let world := steady_world (scene_info "GTiff" 1) one_band in
  let used := fst (reads world (tolerant_reader 2 1)
                     (map (pair 0) [window_of 1 1; window_of 2 2]) fresh_sys) in
  let rebuilt := __setstate__ (__getstate__ used) in
  stationary world
  /\ _dataset used <> None
  /\ _dataset rebuilt = None
  /\ fst (fst (read world rebuilt 3 (window_of 1 2) {| clock := 40; trace := [] |}))
     = fst (fst (read world used 0 (window_of 1 2) {| clock := 7; trace := [] |})).
Proof.
  intros world used rebuilt.
  assert (Hstat : stationary world) by (repeat split; intros; reflexivity).
  destruct (C9_pickle_round_trip world used (tolerant_reader 2 1) 0 3
              [window_of 1 1; window_of 2 2] (window_of 1 2) fresh_sys
              {| clock := 7; trace := [] |} {| clock := 40; trace := [] |} Hstat eq_refl)
    as [_ [Hnone [_ Hused]]].
  split; [exact Hstat |]. split; [discriminate |]. split; [exact Hnone | exact Hused].
Defined.

Lemma C10_witness :
  (exists s',
     read (steady_world scene_without_crs one_band) (tolerant_reader 1 0) 0
       (window_of 1 2) fresh_sys
     = (Raise (Foreign "AttributeError" "to_epsg"), tolerant_reader 1 0, s')
     /\ warnings (trace s') = [])
  /\ (exists s',
        read (steady_world larger_scene one_band) (tolerant_reader 1 0) 0
          (window_of 1 2) fresh_sys
        = (Raise not_found, tolerant_reader 1 0, s')
        /\ warnings (trace s') = []).
Proof.
  split.
  - edestruct (C10_later_failures_propagate
                 (steady_world scene_without_crs one_band) (tolerant_reader 1 0) 0
                 (window_of 1 2) fresh_sys scene_without_crs
                 (Foreign "AttributeError" "to_epsg"))
      as [s' [Hread Hwarn]].
    1-3: by_evaluation.
    + left. reflexivity.
    + exists s'. split; [exact Hread | exact Hwarn].
  - edestruct (C10_later_failures_propagate
                 (steady_world larger_scene one_band) (tolerant_reader 1 0) 0
                 (window_of 1 2) fresh_sys larger_scene not_found)
      as [s' [Hread Hwarn]].
    1-3: by_evaluation.
    + right. do 2 eexists. split; [reflexivity |]. split; reflexivity.
    + exists s'. split; [exact Hread | exact Hwarn].
Defined.

(** * The delegates and the life cycle of the reader *)

Section DelegateProperties.

Context {num : Type} {PN : PyNumber num}.

Variable world : World num.

Implicit Types (self : AutoParallelRioReader num) (d : ThreadsafeRioDataset num).
Implicit Types (tl : ThreadLocalRioDataset num) (st : SingleThreadedRioDataset num).
Implicit Types (s : Sys) (tid : nat) (window : Window) (e : Exception).

Ltac run_monad :=
  unfold with_env, with_lock, with_ctx, try_except, bind, ret, raise, lift, emit,
         SelfCleaningDatasetReader, WarpedVRT, native_close, native_read.

Ltac normalise_trace :=
  unfold log, tick; simpl; repeat rewrite <- app_assoc; simpl.

Ltac find_event := simpl; repeat (first [left; reflexivity | right]).

Ltac one_pool_open :=
  eexists; normalise_trace; split; [reflexivity | split; [reflexivity | find_event]].

Lemma pool_opens_app (a b : list Event) : pool_opens (a ++ b) = pool_opens a + pool_opens b.
Proof.
  induction a as [| ev a IH]; simpl; [reflexivity |].
  destruct ev as [| | | | | u [drv |] | | |]; simpl; rewrite IH; reflexivity.
Qed.

Lemma native_closes_app (a b : list Event) :
  native_closes (a ++ b) = native_closes a ++ native_closes b.
Proof.
  induction a as [| ev a IH]; simpl; [reflexivity |].
  destruct ev; simpl; rewrite IH; reflexivity.
Qed.

Lemma thread_attrs_head' (tbl : list (nat * (Dataset num * option (Vrt num))))
    tid entry :
  thread_attrs ((tid, entry) :: tbl) tid = Some entry.
Proof. simpl. rewrite Nat.eqb_refl. reflexivity. Qed.

Lemma thread_attrs_other (tbl : list (nat * (Dataset num * option (Vrt num))))
    tid t entry :
  t <> tid -> thread_attrs ((tid, entry) :: tbl) t = thread_attrs tbl t.
Proof.
  intros Hneq. simpl. destruct (Nat.eqb tid t) eqn:E; [| reflexivity].
  apply Nat.eqb_eq in E. congruence.
Qed.

(** ** [ThreadLocalRioDataset] *)

(** X1.  A read by a thread that already owns a handle in the pool opens
    nothing and leaves the pool as it is: the lock is taken for the
    lookup only, and the window is read, outside the lock, from that
    thread's own handle, the VRT when it has one and the dataset
    otherwise. *)
Theorem pool_read_of_served_thread tl tid window dt s ds vrt :
  thread_attrs (tl_threadlocal tl) tid = Some (ds, vrt) ->
  tl_read world tl tid window dt s
  = (rio_read world (clock s)
       (match vrt with Some v => ds_info (vrt_src v) | None => ds_info ds end)
       (option_map (@vrt_kwargs num) vrt) window dt,
     tl,
     {| clock := S (clock s);
        trace := trace s ++ [EnvEnter ScopeRead; Acquire HandleLock; Release HandleLock;
                             NativeRead (handle_id (vrt_or_ds ds vrt)) window;
                             EnvExit ScopeRead] |}).
Proof.
  intros Hattrs. unfold tl_read, tl_dataset. run_monad. simpl. rewrite Hattrs.
  destruct vrt as [v |]; normalise_trace; reflexivity.
Qed.

(** X2.  The first read of a thread that owns no handle yet makes one
    attempt to open a private copy, with the url, driver and open
    options the pool recorded.  The handles of the other threads are
    not touched.  When the attempt fails the pool stays as it was and
    the error reaches the caller; when it succeeds the thread owns a
    freshly opened dataset, wrapped in a VRT built from the recorded
    parameters exactly when the pool has such parameters, and the window
    is read through that new handle. *)
Theorem pool_first_read_of_thread tl tid window dt s r tl' s' :
  thread_attrs (tl_threadlocal tl) tid = None ->
  tl_read world tl tid window dt s = (r, tl', s') ->
  (exists evs,
     trace s' = trace s ++ evs
     /\ pool_opens evs = 1
     /\ In (NativeOpen (tl_url tl) (Some (tl_driver tl))) evs)
  /\ (forall t, t <> tid ->
        thread_attrs (tl_threadlocal tl') t = thread_attrs (tl_threadlocal tl) t)
  /\ (thread_attrs (tl_threadlocal tl') tid = None ->
        tl' = tl /\ exists e, r = Raise e)
  /\ (forall ds vrt,
        thread_attrs (tl_threadlocal tl') tid = Some (ds, vrt) ->
        rio_open world (clock s) (tl_url tl) (Some (tl_driver tl)) (tl_open_options tl)
        = Ok (ds_info ds)
        /\ ds_id ds = clock s
        /\ option_map (@vrt_kwargs num) vrt = tl_vrt_params tl
        /\ (forall v, vrt = Some v -> vrt_src v = ds)
        /\ r = rio_read world (clock s' - 1) (ds_info ds) (tl_vrt_params tl) window dt).
Proof.
  intros Hattrs. unfold tl_read, tl_dataset, tl_open. run_monad. simpl. rewrite Hattrs. simpl.
  assert (Hother : forall entry t, t <> tid ->
            thread_attrs ((tid, entry) :: tl_threadlocal tl) t
            = thread_attrs (tl_threadlocal tl) t)
    by (intros entry t Hneq; apply thread_attrs_other; exact Hneq).
  assert (Hfailed : forall e0,
            (forall t, t <> tid ->
               thread_attrs (tl_threadlocal tl) t = thread_attrs (tl_threadlocal tl) t)
            /\ (thread_attrs (tl_threadlocal tl) tid = None ->
                  tl = tl /\ exists e, Raise (A := ndarray num) e0 = Raise e)
            /\ (forall ds vrt,
                  thread_attrs (tl_threadlocal tl) tid = Some (ds, vrt) ->
                  rio_open world (clock s) (tl_url tl) (Some (tl_driver tl))
                    (tl_open_options tl) = Ok (ds_info ds)
                  /\ ds_id ds = clock s
                  /\ option_map (@vrt_kwargs num) vrt = tl_vrt_params tl
                  /\ (forall v, vrt = Some v -> vrt_src v = ds)
                  /\ Raise e0
                     = rio_read world (S (clock s) - 1) (ds_info ds) (tl_vrt_params tl)
                         window dt)).
  { intros e0. split; [reflexivity |]. split.
    - intros _. split; [reflexivity | eexists; reflexivity].
    - intros ds vrt Hsome. rewrite Hattrs in Hsome. discriminate. }
  destruct (rio_open world (clock s) (tl_url tl) (Some (tl_driver tl)) (tl_open_options tl))
    as [info | e] eqn:Hopen; simpl.
  - destruct (tl_vrt_params tl) as [params |] eqn:Hparams; simpl.
    + destruct (rio_warp world (S (clock s)) info params) as [vi | e] eqn:Hwarp; simpl;
        intros H; injection H as <- <- <-.
      * split; [one_pool_open |]. split; [intros t Hneq; apply Hother; exact Hneq |].
        cbn [tl_threadlocal set_threadlocal]. rewrite thread_attrs_head'.
        split; [discriminate |].
        intros ds vrt Hsome. injection Hsome as <- <-. simpl.
        split; [reflexivity |]. split; [reflexivity |]. split; [reflexivity |].
        split; [intros v Hv; injection Hv as <-; reflexivity |].
        first [reflexivity | f_equal; lia].
      * split; [one_pool_open |]. destruct (Hfailed e) as [H1 [H2 H3]].
        split; [exact H1 |]. split; [exact H2 |].
        intros ds vrt Hsome. rewrite Hattrs in Hsome. discriminate.
    + intros H; injection H as <- <- <-.
      split; [one_pool_open |]. split; [intros t Hneq; apply Hother; exact Hneq |].
      cbn [tl_threadlocal set_threadlocal]. rewrite thread_attrs_head'.
      split; [discriminate |].
      intros ds vrt Hsome. injection Hsome as <- <-. simpl.
      split; [reflexivity |]. split; [reflexivity |]. split; [reflexivity |].
      split; [intros v Hv; discriminate |].
      first [reflexivity | f_equal; lia].
  - intros H; injection H as <- <- <-.
    split; [one_pool_open |]. destruct (Hfailed e) as [H1 [H2 H3]].
    split; [exact H1 |]. split; [exact H2 |].
    intros ds vrt Hsome. rewrite Hattrs in Hsome. discriminate.
Qed.

Ltac keep_entry :=
  let Hentry := fresh "Hentry" in
  intros ? ? Hentry;
  first [exact Hentry
        | match goal with Hkeep : forall ds vrt t entry, _ |- _ => apply Hkeep; exact Hentry end].

(** One read on a pool: handles that are there stay, at most one copy
    is opened, none when the calling thread is served. *)
Lemma tl_read_step tl tid window dt s r tl' s' :
  tl_read world tl tid window dt s = (r, tl', s') ->
  (forall t entry,
     thread_attrs (tl_threadlocal tl) t = Some entry ->
     thread_attrs (tl_threadlocal tl') t = Some entry)
  /\ pool_opens (trace s') <= pool_opens (trace s) + 1
  /\ (thread_attrs (tl_threadlocal tl) tid <> None ->
        tl' = tl /\ pool_opens (trace s') = pool_opens (trace s))
  /\ (thread_attrs (tl_threadlocal tl) tid = None ->
        pool_opens (trace s') = pool_opens (trace s) + 1).
Proof.
  unfold tl_read, tl_dataset, tl_open. run_monad. simpl.
  destruct (thread_attrs (tl_threadlocal tl) tid) as [[ds vrt] |] eqn:Hattrs; simpl.
  - destruct vrt as [v |]; simpl; intros H; injection H as <- <- <-; simpl;
      rewrite !pool_opens_app; simpl;
      (split; [keep_entry |]); (split; [lia |]); (split; [intros _; split; [reflexivity | lia] |]);
      discriminate.
  - assert (Hkeep : forall ds vrt t entry,
              thread_attrs (tl_threadlocal tl) t = Some entry ->
              thread_attrs ((tid, (ds, vrt)) :: tl_threadlocal tl) t = Some entry).
    { intros ds vrt t entry Hentry. rewrite thread_attrs_other; [exact Hentry |].
      intros ->. rewrite Hattrs in Hentry. discriminate. }
    destruct (rio_open world (clock s) (tl_url tl) (Some (tl_driver tl))
                (tl_open_options tl)) as [info | e]; simpl.
    + destruct (tl_vrt_params tl) as [params |]; simpl.
      * destruct (rio_warp world (S (clock s)) info params) as [vi | e]; simpl;
          intros H; injection H as <- <- <-; simpl;
          rewrite !pool_opens_app; simpl;
          (split; [keep_entry |]); (split; [lia |]);
          (split; [intros Hc; contradiction Hc; reflexivity | intros _; lia]).
      * intros H; injection H as <- <- <-; simpl.
        rewrite !pool_opens_app; simpl.
        split; [keep_entry |]. split; [lia |].
        split; [intros Hc; contradiction Hc; reflexivity | intros _; lia].
    + intros H; injection H as <- <- <-; simpl.
      rewrite !pool_opens_app; simpl.
      split; [keep_entry |]. split; [lia |].
      split; [intros Hc; contradiction Hc; reflexivity | intros _; lia].
Qed.

Lemma thread_attrs_handles (tbl : list (nat * (Dataset num * option (Vrt num)))) t ds vrt :
  thread_attrs tbl t = Some (ds, vrt) -> In (ds_id ds) (table_handles tbl).
Proof.
  induction tbl as [| [t' [ds' vrt']] tbl IH]; simpl; [discriminate |].
  destruct (Nat.eqb t' t).
  - intros H. injection H as -> ->. apply in_or_app. left.
    destruct vrt; simpl; auto.
  - intros H. apply in_or_app. right. exact (IH H).
Qed.

(** X3.  [close] on a pool takes the lock, drops the handles of every
    thread and releases the lock.  Dropped handles are finalised, so
    between the two lock events there are closes of handles of the pool
    and nothing else, and the dataset of every thread that was served
    is among them.  The pool itself stays usable: it keeps url, driver,
    options and VRT parameters, serves no thread any more, and the next
    read of any thread, also of one that was served before, opens a
    copy again. *)
Theorem pool_close_forgets_every_thread tl s :
  exists tl' s' closes,
    tl_close tl s = (Ok tl', s')
    /\ trace s'
       = trace s ++ Acquire HandleLock :: map NativeClose closes ++ [Release HandleLock]
    /\ incl closes (table_handles (tl_threadlocal tl))
    /\ (forall t ds vrt,
          thread_attrs (tl_threadlocal tl) t = Some (ds, vrt) -> In (ds_id ds) closes)
    /\ tl_url tl' = tl_url tl /\ tl_driver tl' = tl_driver tl
    /\ tl_open_options tl' = tl_open_options tl /\ tl_vrt_params tl' = tl_vrt_params tl
    /\ (forall t, thread_attrs (tl_threadlocal tl') t = None)
    /\ (forall tid window dt,
          pool_opens (trace (snd (tl_read world tl' tid window dt s')))
          = pool_opens (trace s') + 1).
Proof.
  exists (set_threadlocal tl []). eexists. exists (table_handles (tl_threadlocal tl)).
  split; [apply tl_close_run |].
  split.
  { simpl. rewrite closed_trace. simpl. rewrite <- !app_assoc. reflexivity. }
  split; [apply incl_refl |].
  split; [intros t ds vrt; apply thread_attrs_handles |].
  do 4 (split; [reflexivity |]). split; [reflexivity |].
  intros tid window dt.
  destruct (tl_read world (set_threadlocal tl []) tid window dt
              (log (Release HandleLock)
                 (closed (table_handles (tl_threadlocal tl)) (log (Acquire HandleLock) s))))
    as [[r tl''] s''] eqn:Hread.
  destruct (tl_read_step _ _ _ _ _ _ _ _ Hread) as [_ [_ [_ Hone]]].
  simpl. apply Hone. reflexivity.
Qed.

Lemma tl_reads_step tl calls dt s :
  (forall t entry,
     thread_attrs (tl_threadlocal tl) t = Some entry ->
     thread_attrs (tl_threadlocal (fst (tl_reads world tl calls dt s))) t = Some entry)
  /\ pool_opens (trace (snd (tl_reads world tl calls dt s)))
     <= pool_opens (trace s) + List.length calls
  /\ (Forall (fun call => thread_attrs (tl_threadlocal tl) (fst call) <> None) calls ->
        fst (tl_reads world tl calls dt s) = tl
        /\ pool_opens (trace (snd (tl_reads world tl calls dt s))) = pool_opens (trace s)).
Proof.
  revert tl s. induction calls as [| [tid window] calls IH]; intros tl s.
  - simpl. split; [auto |]. split; [lia |]. auto.
  - simpl.
    destruct (tl_read world tl tid window dt s) as [[r tl'] s'] eqn:Hread.
    destruct (tl_read_step _ _ _ _ _ _ _ _ Hread) as [Hkeep [Hle [Hserved _]]].
    destruct (IH tl' s') as [IHkeep [IHle IHserved]].
    split; [intros t entry Hentry; apply IHkeep, Hkeep; exact Hentry |].
    split; [lia |].
    intros Hall. inversion Hall as [| call rest Hhead Htail]; subst. simpl in Hhead.
    destruct (Hserved Hhead) as [-> Hsame].
    destruct (IHserved Htail) as [Hfix Hcount].
    split; [exact Hfix | lia].
Qed.

(** X4.  Over any run of reads by any threads a pool never replaces a
    handle: a thread that owns a handle keeps that very handle.  The run
    opens at most one copy per call, and none at all when every calling
    thread was served at the start, in which case the pool is left as it
    was. *)
Theorem pool_keeps_handles_over_runs tl calls dt s t entry :
  thread_attrs (tl_threadlocal tl) t = Some entry ->
  thread_attrs (tl_threadlocal (fst (tl_reads world tl calls dt s))) t = Some entry
  /\ pool_opens (trace (snd (tl_reads world tl calls dt s)))
     <= pool_opens (trace s) + List.length calls
  /\ (Forall (fun call => thread_attrs (tl_threadlocal tl) (fst call) <> None) calls ->
        fst (tl_reads world tl calls dt s) = tl
        /\ pool_opens (trace (snd (tl_reads world tl calls dt s))) = pool_opens (trace s)).
Proof.
  intros Hentry. destruct (tl_reads_step tl calls dt s) as [Hkeep [Hle Hserved]].
  split; [apply Hkeep; exact Hentry |]. split; [exact Hle | exact Hserved].
Qed.

(** ** Failures around the open *)

(** X5.  When the pool cannot open the copy for a new thread, the reader
    treats that as a failed read of the window: a recognised error gives
    a warning and the fill buffer, any other error a [RuntimeError] whose
    message starts with "Error reading".  The delegate stays in place
    and the reader is unchanged, so the thread's next read tries to open
    its copy again. *)
Theorem reopen_failure_is_a_read_failure self tl tid window s e :
  _dataset self = Some (ThreadLocal tl) ->
  thread_attrs (tl_threadlocal tl) tid = None ->
  rio_open world (clock s) (tl_url tl) (Some (tl_driver tl)) (tl_open_options tl)
  = Raise e ->
  exists s',
    read world self tid window s
    = (if exception_matches e (errors_as_nodata self)
       then Ok (nodata_for_window window (fill_value self) (dtype self))
       else Raise (RuntimeError (read_error_msg self window e) (Some e)),
       self, s')
    /\ hd_error (read_error_msg self window e) = Some (Lit "Error reading ")
    /\ warnings (trace s')
       = warnings (trace s)
         ++ (if exception_matches e (errors_as_nodata self)
             then [read_error_msg self window e] else []).
Proof.
  intros Hsome Hattrs Hopen.
  pose proof (dataset_opened world self (ThreadLocal tl) tid s Hsome) as Hd.
  assert (Hr : delegate_read world (ThreadLocal tl) tid window (dtype self)
                 (log (Release DatasetLock) (log (Acquire DatasetLock) s))
               = (Raise e, ThreadLocal tl,
                  log (EnvExit ScopeRead)
                    (log (EnvExit ScopeOpen)
                       (tick (log (NativeOpen (tl_url tl) (Some (tl_driver tl)))
                                (log (EnvEnter ScopeOpen)
                                   (log (Release HandleLock)
                                      (log (Acquire HandleLock)
                                         (log (EnvEnter ScopeRead)
                                            (log (Release DatasetLock)
                                               (log (Acquire DatasetLock) s))))))))))).
  { simpl. unfold tl_read, tl_dataset, tl_open. run_monad. simpl.
    rewrite Hattrs. simpl. rewrite Hopen. reflexivity. }
  rewrite (read_delegate_raises world self tid window s _ _ _ e _ _ Hd Hr).
  rewrite (set_dataset_same self _ Hsome).
  destruct (exception_matches e (errors_as_nodata self)); eexists;
    (split; [reflexivity |]); (split; [reflexivity |]);
    simpl; repeat rewrite warnings_app; simpl; rewrite ?app_nil_r; reflexivity.
Qed.

(** X6.  An open error that is not recognised makes the read raise a
    [RuntimeError] from it, whose message carries the locator and the
    original exception; one native call was made, nothing is warned
    about, and the reader stays unopened. *)
Theorem unrecognised_open_error_is_fatal self tid window s e :
  _dataset self = None ->
  rio_open world (clock s) (url self) None [] = Raise e ->
  exception_matches e (errors_as_nodata self) = false ->
  exists s',
    read world self tid window s
    = (Raise (RuntimeError (open_error_msg self e) (Some e)), self, s')
    /\ In (ReprStr (url self)) (open_error_msg self e)
    /\ In (ReprExc e) (open_error_msg self e)
    /\ clock s' = S (clock s)
    /\ warnings (trace s') = warnings (trace s).
Proof.
  intros Hnone Hopen Hmatch.
  pose proof (dataset_unopened world self tid s Hnone) as Hd.
  rewrite (_open_unrecognised world self tid (log (Acquire DatasetLock) s) e Hopen Hmatch)
    in Hd.
  eexists. split; [apply read_open_raises; exact Hd |].
  split; [simpl; auto |]. split; [simpl; auto |]. split; [reflexivity |].
  unfold after_native_open. simpl. repeat rewrite warnings_app. simpl.
  rewrite ?app_nil_r. reflexivity.
Qed.

(** Reads through the synthetic delegate: no native call, no warning,
    reader unchanged. *)
Lemma reads_degraded self nr calls s :
  _dataset self = Some (Nodata nr) ->
  fst (reads world self calls s) = self
  /\ clock (snd (reads world self calls s)) = clock s
  /\ warnings (trace (snd (reads world self calls s))) = warnings (trace s).
Proof.
  intros Hsome. revert s. induction calls as [| [tid window] calls IH]; intros s.
  - simpl. auto.
  - simpl.
    pose proof (dataset_opened world self (Nodata nr) tid s Hsome) as Hd.
    rewrite (read_delegate_ok world self tid window s (Nodata nr) self _
               (nodata_read nr window) (Nodata nr) _ Hd eq_refl).
    rewrite (set_dataset_same self (Nodata nr) Hsome).
    destruct (IH (log (Release DatasetLock) (log (Acquire DatasetLock) s)))
      as [Hfix [Hclock Hwarn]].
    split; [exact Hfix |]. split; [exact Hclock |].
    rewrite Hwarn. simpl. repeat rewrite warnings_app. simpl. rewrite ?app_nil_r.
    reflexivity.
Qed.

(** X7.  A recognised open error is remembered.  The read that met it
    warns once, with the locator and the exception in the message, and
    stores a synthetic delegate with the dtype and fill value of the
    reader.  From then on no read of any thread makes a native call or
    warns again, whatever the resource would answer by then: the reader
    stays degraded until it is closed. *)
Theorem recognised_open_error_is_remembered self tid window calls s e :
  _dataset self = None ->
  rio_open world (clock s) (url self) None [] = Raise e ->
  exception_matches e (errors_as_nodata self) = true ->
  let self1 := snd (fst (read world self tid window s)) in
  let s1 := snd (read world self tid window s) in
  _dataset self1
  = Some (Nodata {| nr_dtype := dtype self; nr_fill_value := fill_value self |})
  /\ clock s1 = S (clock s)
  /\ warnings (trace s1) = warnings (trace s) ++ [open_error_msg self e]
  /\ In (ReprStr (url self)) (open_error_msg self e)
  /\ In (ReprExc e) (open_error_msg self e)
  /\ fst (reads world self1 calls s1) = self1
  /\ clock (snd (reads world self1 calls s1)) = clock s1
  /\ warnings (trace (snd (reads world self1 calls s1))) = warnings (trace s1).
Proof.
  intros Hnone Hopen Hmatch self1 s1.
  pose proof (dataset_unopened world self tid s Hnone) as Hd.
  rewrite (_open_recognised world self tid (log (Acquire DatasetLock) s) e Hopen Hmatch)
    in Hd.
  pose proof (read_delegate_ok world self tid window s _ _ _
                (nodata_read {| nr_dtype := dtype self; nr_fill_value := fill_value self |}
                   window) _ _ Hd eq_refl) as Hread.
  assert (Hself1 : _dataset self1
            = Some (Nodata {| nr_dtype := dtype self; nr_fill_value := fill_value self |}))
    by (subst self1; rewrite Hread; reflexivity).
  split; [exact Hself1 |].
  split; [subst s1; rewrite Hread; reflexivity |].
  split.
  { subst s1. rewrite Hread. unfold after_native_open. simpl.
    repeat rewrite warnings_app. simpl. rewrite ?app_nil_r. reflexivity. }
  split; [simpl; auto |]. split; [simpl; auto |].
  exact (reads_degraded self1 _ calls s1 Hself1).
Qed.

(** ** [close] *)

(** X8.  [close] never raises and keeps the constructor fields; closing
    a reader that holds no delegate only takes and releases the lock, so
    a second [close] changes nothing and makes no native call; and the
    first read after a [close] opens the resource again. *)
Theorem close_is_idempotent_and_read_reopens self tid window s :
  exists s1 s2,
    close self s = (Ok (set_dataset self None), s1)
    /\ close (set_dataset self None) s1 = (Ok (set_dataset self None), s2)
    /\ clock s2 = clock s1
    /\ trace s2 = trace s1 ++ [Acquire DatasetLock; Release DatasetLock]
    /\ reader_opens (trace (snd (read world (set_dataset self None) tid window s1)))
       = reader_opens (trace s1) + 1.
Proof.
  destruct (close_run self s) as [s1 [Hfirst _]]. exists s1. eexists.
  split; [exact Hfirst |].
  split; [unfold close; run_monad; simpl; reflexivity |].
  split; [reflexivity |]. split; [normalise_trace; reflexivity |].
  apply read_unopened_opens. reflexivity.
Qed.

Lemma keeps_lock_closes (l : Lock) (hs : list nat) : keeps_lock l (map NativeClose hs) = true.
Proof. induction hs as [| h hs IH]; simpl; [reflexivity | exact IH]. Qed.

Lemma keeps_lock_app (l : Lock) (a b : list Event) :
  keeps_lock l (a ++ b) = keeps_lock l a && keeps_lock l b.
Proof.
  induction a as [| ev a IH]; simpl; [reflexivity |].
  destruct ev; simpl; rewrite ?IH, ?andb_assoc; reflexivity.
Qed.

Lemma nesting_closes (stack : list Bracket) (hs : list nat) (tr : list Event) :
  nesting stack (map NativeClose hs ++ tr) = nesting stack tr.
Proof. induction hs as [| h hs IH]; simpl; [reflexivity | exact IH]. Qed.

Lemma pool_opens_closes (hs : list nat) : pool_opens (map NativeClose hs) = 0.
Proof. induction hs as [| h hs IH]; simpl; [reflexivity | exact IH]. Qed.

(** X9.  What [close] closes.  Everything happens between the
    acquisition and the release of [_dataset_lock], nothing is opened,
    and every lock taken is released.  Over a lock-serialised delegate
    [close] first closes the VRT, when there is one, and then the
    dataset, both while the lock of the delegate is held; dropping the
    delegate afterwards closes the dataset again, and whatever is closed
    then is a handle of the delegate.  Over a pool the handles closed
    are handles of the pool, the dataset of every served thread among
    them.  Over the synthetic delegate or no delegate nothing happens
    at all. *)
Theorem close_closes_the_handles_of_the_delegate self s :
  exists s1 evs,
    close self s = (Ok (set_dataset self None), s1)
    /\ trace s1 = trace s ++ Acquire DatasetLock :: evs ++ [Release DatasetLock]
    /\ keeps_lock DatasetLock evs = true
    /\ nesting [] (Acquire DatasetLock :: evs ++ [Release DatasetLock]) = Some []
    /\ reader_opens evs = 0
    /\ pool_opens evs = 0
    /\ match _dataset self with
       | Some (SingleThreaded st) =>
           let hs := handles_of (st_ds st) (st_vrt st) in
           exists later,
             evs = Acquire HandleLock :: map NativeClose hs ++ Release HandleLock :: later
             /\ In (ds_id (st_ds st)) (native_closes later)
             /\ incl (native_closes later) hs
       | Some (ThreadLocal tl) =>
           incl (native_closes evs) (table_handles (tl_threadlocal tl))
           /\ forall t ds vrt,
                thread_attrs (tl_threadlocal tl) t = Some (ds, vrt) ->
                In (ds_id ds) (native_closes evs)
       | _ => evs = []
       end.
Proof.
  destruct (close_run self s) as [s1 [Hclose Htrace]].
  exists s1, (close_events (_dataset self)).
  split; [exact Hclose |]. split; [exact Htrace |].
  destruct (_dataset self) as [[nr | st | tl] |]; simpl.
  - repeat split.
  - set (hs := handles_of (st_ds st) (st_vrt st)).
    assert (Hds : In (ds_id (st_ds st)) hs) by (subst hs; destruct (st_vrt st); simpl; auto).
    split.
    { repeat (rewrite ?keeps_lock_app, ?keeps_lock_closes; simpl). reflexivity. }
    split.
    { repeat (rewrite <- ?app_assoc, ?nesting_closes; simpl). reflexivity. }
    split.
    { repeat (rewrite ?reader_opens_app, ?reader_opens_closes; simpl). reflexivity. }
    split.
    { repeat (rewrite ?pool_opens_app, ?pool_opens_closes; simpl). reflexivity. }
    eexists. split; [reflexivity |].
    simpl. rewrite !native_closes_app. simpl. rewrite !native_closes_closes.
    split.
    + apply in_or_app. left. exact Hds.
    + apply incl_app; apply incl_refl.
  - split.
    { repeat (rewrite ?keeps_lock_app, ?keeps_lock_closes; simpl). reflexivity. }
    split.
    { repeat (rewrite <- ?app_assoc, ?nesting_closes; simpl). reflexivity. }
    split.
    { repeat (rewrite ?reader_opens_app, ?reader_opens_closes; simpl). reflexivity. }
    split.
    { repeat (rewrite ?pool_opens_app, ?pool_opens_closes; simpl). reflexivity. }
    rewrite native_closes_app. simpl. rewrite native_closes_closes, app_nil_r.
    split; [apply incl_refl |].
    intros t ds vrt. apply thread_attrs_handles.
  - repeat split.
Qed.

(** ** After the delegate read *)

(** X10.  Scale and offset are applied only when they differ from 1 and
    0: with scale 1 nothing is multiplied and with offset 0 nothing is
    added, so neither operand is then put to numpy at all, and with both
    a valid value comes back as it was read.  When numpy accepts the
    operands that are used and the fill value, masked positions get the
    fill value as cast to the dtype, and the shape is kept. *)
Theorem unit_scale_and_zero_offset_are_skipped
    self (band : ndarray num) scale offset mul add fill :
  scale_offset self = (scale, offset) ->
  arr_dtype band = dtype self ->
  (num_eqb scale num_one = false -> num_imul (dtype self) scale = Ok mul) ->
  (num_eqb offset num_zero = false -> num_iadd (dtype self) offset = Ok add) ->
  num_fill (dtype self) (fill_value self) = Ok fill ->
  let rescaled v :=
    let v1 := if num_eqb scale num_one then v else mul v in
    if num_eqb offset num_zero then v1 else add v1 in
  exists out,
    rescale_and_fill self band = Ok out
    /\ shape out = shape band
    /\ List.length (elems out) = List.length (elems band)
    /\ (forall i v, nth_error (elems band) i = Some (v, false) ->
          nth_error (elems out) i = Some (rescaled v, false))
    /\ (forall i v, nth_error (elems band) i = Some (v, true) ->
          nth_error (elems out) i = Some (fill, false)).
Proof.
  intros Hso Hdt Hmul Hadd Hfill rescaled. rewrite <- Hdt in Hmul, Hadd, Hfill.
  rewrite (rescale_and_fill_elements self band scale offset mul add fill
             Hso Hmul Hadd Hfill).
  unfold issubdtype. rewrite Hdt, String.eqb_refl.
  eexists. split; [reflexivity |]. simpl.
  split; [reflexivity |]. split; [apply length_map |].
  split; intros i v Hi; rewrite nth_error_map, Hi; reflexivity.
Qed.

(** X11.  The final assertion is outside the reach of
    [errors_as_nodata]: when the delegate returns an array whose dtype
    is not the one the reader was built with, and numpy accepts the
    scale, the offset and the fill value for the dtype of that array,
    the read raises an [AssertionError] naming both dtypes, whatever the
    recognised-error set is, and emits no warning. *)
Theorem dtype_mismatch_is_an_assertion_error
    self tid window s d self1 s1 result d' s2 band scale offset mul add fill :
  dataset world self tid s = (Ok (d, self1), s1) ->
  delegate_read world d tid window (dtype self) s1 = (Ok result, d', s2) ->
  select_band result = Ok band ->
  arr_dtype result <> dtype self ->
  scale_offset self = (scale, offset) ->
  (num_eqb scale num_one = false -> num_imul (arr_dtype result) scale = Ok mul) ->
  (num_eqb offset num_zero = false -> num_iadd (arr_dtype result) offset = Ok add) ->
  num_fill (arr_dtype result) (fill_value self) = Ok fill ->
  exists msg,
    read world self tid window s
    = (Raise (AssertionError msg), set_dataset self (Some d'), s2)
    /\ In (ReprDtype (dtype self)) msg
    /\ In (ReprDtype (arr_dtype result)) msg.
Proof.
  intros Hd Hr Hb Hneq Hso Hmul Hadd Hfill.
  rewrite (read_delegate_ok world self tid window s d self1 s1 result d' s2 Hd Hr).
  unfold postprocess. rewrite Hb.
  pose proof (select_band_dtype result band Hb) as Hbd.
  rewrite <- Hbd in Hmul, Hadd, Hfill.
  rewrite (rescale_and_fill_elements self band scale offset mul add fill
             Hso Hmul Hadd Hfill).
  assert (Hno : issubdtype (arr_dtype band) (dtype self) = false)
    by (apply String.eqb_neq; rewrite Hbd; exact Hneq).
  rewrite Hno. eexists. split; [reflexivity |]. rewrite Hbd. split; find_event.
Qed.

(** X12.  Whatever path a read takes, an array it returns is dense and
    has the dtype the reader was built with: no element is masked. *)
Theorem read_returns_dense_arrays_of_the_dtype self tid window s out self' s' :
  read world self tid window s = (Ok out, self', s') ->
  arr_dtype out = dtype self
  /\ Forall (fun x => snd x = false) (elems out).
Proof.
  intros Hread.
  destruct (dataset world self tid s) as [[[d self1] | e] s1] eqn:Hd.
  2: { rewrite (read_open_raises world self tid window s e s1 Hd) in Hread. discriminate. }
  destruct (delegate_read world d tid window (dtype self) s1) as [[r d'] s2] eqn:Hr.
  destruct r as [result | e].
  - rewrite (read_delegate_ok world self tid window s d self1 s1 result d' s2 Hd Hr)
      in Hread.
    injection Hread as Hpost _ _. unfold postprocess in Hpost.
    destruct (select_band result) as [band | e]; [| discriminate].
    unfold rescale_and_fill in Hpost. destruct (scale_offset self) as [scale offset].
    destruct (if negb (num_eqb scale num_one) then imul band scale else Ok band)
      as [scaled | e]; [| discriminate].
    destruct (if negb (num_eqb offset num_zero) then iadd scaled offset else Ok scaled)
      as [shifted | e]; [| discriminate].
    unfold filled in Hpost.
    destruct (num_fill (arr_dtype shifted) (fill_value self)) as [fill | e];
      [| discriminate].
    cbn [arr_dtype] in Hpost.
    destruct (issubdtype (arr_dtype shifted) (dtype self)) eqn:Hsub; [| discriminate].
    injection Hpost as <-. split.
    + apply String.eqb_eq. exact Hsub.
    + apply Forall_forall. intros x Hx. simpl in Hx.
      apply in_map_iff in Hx. destruct Hx as [[v m] [<- _]]. reflexivity.
  - rewrite (read_delegate_raises world self tid window s d self1 s1 e d' s2 Hd Hr)
      in Hread.
    destruct (exception_matches e (errors_as_nodata self)); [| discriminate].
    injection Hread as <- _ _.
    destruct (nodata_for_window_spec window (fill_value self) (dtype self))
      as [_ [Hdt [_ Hfill]]].
    split; [exact Hdt |].
    apply Forall_forall. intros x Hx. rewrite Forall_forall in Hfill.
    rewrite (Hfill x Hx). reflexivity.
Qed.

(** ** The choice of a VRT *)

(** X13.  [_open] builds a [WarpedVRT] exactly when the geometry of the
    dataset differs from the one the spec asks for.  With equal geometry
    no VRT is constructed and the delegate reads the dataset itself.
    Otherwise one VRT is constructed over the dataset just opened, with
    the CRS, transform and size of the spec, the resampling of the
    reader, an alpha band exactly when the dataset declares no nodata
    value, and the GCP-based source parameters exactly when the dataset
    has ground control points. *)
Theorem vrt_is_built_only_when_geometry_differs self tid s info crs tr d s' :
  rio_open world (clock s) (url self) None [] = Ok info ->
  current_geometry info = Ok (crs, tr) ->
  _open world self tid s = (Ok d, s') ->
  let same := vrt_params_eqb (vrt_params (spec self))
                {| vp_crs := crs; vp_transform := tr;
                   vp_height := ds_height info; vp_width := ds_width info |} in
  let kw := open_vrt_kwargs self info tr in
  exists evs,
    trace s' = trace s ++ evs
    /\ (same = true -> delegate_vrt d tid = None /\ native_warps evs = 0)
    /\ (same = false ->
          native_warps evs = 1
          /\ exists v, delegate_vrt d tid = Some v
                       /\ vrt_src v = {| ds_id := clock s; ds_info := info |}
                       /\ vrt_kwargs v = kw)
    /\ kw_crs kw = inl (vp_crs (vrt_params (spec self)))
    /\ kw_transform kw = vp_transform (vrt_params (spec self))
    /\ kw_height kw = vp_height (vrt_params (spec self))
    /\ kw_width kw = vp_width (vrt_params (spec self))
    /\ kw_resampling kw = resampling self
    /\ (kw_add_alpha kw = true <-> ds_nodata info = None)
    /\ (kw_src_crs kw = None <-> ds_gcps info = [])
    /\ (kw_src_transform kw = None <-> ds_gcps info = [])
    /\ (kw_src_nodata kw = None <-> ds_gcps info = []).
Proof.
  intros Hopen Hgeom. unfold _open. run_monad. simpl. rewrite Hopen. simpl.
  destruct (Nat.eqb (ds_count info) 1); simpl; [| discriminate].
  rewrite Hgeom. simpl.
  assert (Hkw : let kw := open_vrt_kwargs self info tr in
            kw_crs kw = inl (vp_crs (vrt_params (spec self)))
            /\ kw_transform kw = vp_transform (vrt_params (spec self))
            /\ kw_height kw = vp_height (vrt_params (spec self))
            /\ kw_width kw = vp_width (vrt_params (spec self))
            /\ kw_resampling kw = resampling self
            /\ (kw_add_alpha kw = true <-> ds_nodata info = None)
            /\ (kw_src_crs kw = None <-> ds_gcps info = [])
            /\ (kw_src_transform kw = None <-> ds_gcps info = [])
            /\ (kw_src_nodata kw = None <-> ds_gcps info = [])).
  { unfold open_vrt_kwargs. simpl. do 5 (split; [reflexivity |]).
    split; [destruct (ds_nodata info); split; intros H; (reflexivity || discriminate) |].
    destruct (ds_gcps info); repeat split; intros H; (reflexivity || discriminate). }
  destruct (vrt_params_eqb _ _) eqn:Hsame; simpl.
  - destruct (in_allowlist (ds_driver info)); intros H; injection H as <- <-;
      eexists; normalise_trace; (split; [reflexivity |]);
      (split; [intros _; simpl; rewrite ?Nat.eqb_refl; split; reflexivity |]);
      (split; [discriminate | exact Hkw]).
  - destruct (rio_warp world (S (clock s)) info (open_vrt_kwargs self info tr))
      as [vi | e]; simpl; [| discriminate].
    destruct (in_allowlist (ds_driver info)); intros H; injection H as <- <-;
      eexists; normalise_trace; (split; [reflexivity |]);
      (split; [discriminate |]);
      (split; [intros _; split; [reflexivity |]; eexists; simpl; rewrite ?Nat.eqb_refl;
               split; [reflexivity | split; reflexivity] | exact Hkw]).
Qed.

(** ** Locks and environment scopes *)

Lemma nesting_app (stack stack' : list Bracket) (a b : list Event) :
  nesting stack a = Some stack' -> nesting stack (a ++ b) = nesting stack' b.
Proof.
  revert stack. induction a as [| ev a IH]; intros stack H; simpl in *.
  - injection H as <-. reflexivity.
  - destruct ev as [msg | l | l | sc | sc | u drv | src | h w | h]; try (apply IH; exact H).
    + destruct (holds l stack); [discriminate | apply IH; exact H].
    + destruct stack as [| [l' | sc'] below]; try discriminate.
      destruct (lock_eqb l l'); [apply IH; exact H | discriminate].
    + destruct stack as [| [l' | sc'] below]; try discriminate.
      destruct (scope_eqb sc sc'); [apply IH; exact H | discriminate].
Qed.

Ltac nested := eexists; normalise_trace; split; [reflexivity | reflexivity].

(** [_open] takes no lock and leaves every scope it enters. *)
Lemma _open_nesting self tid s (stack : list Bracket) :
  exists evs,
    trace (snd (_open world self tid s)) = trace s ++ evs /\ nesting stack evs = Some stack.
Proof.
  unfold _open. run_monad. simpl.
  destruct (rio_open world (clock s) (url self) None []) as [info | e]; simpl.
  - destruct (Nat.eqb (ds_count info) 1); simpl; [| nested].
    destruct (current_geometry info) as [[crs tr] | e]; simpl; [| nested].
    destruct (vrt_params_eqb _ _); simpl.
    + destruct (in_allowlist _); nested.
    + destruct (rio_warp world _ _ _) as [vi | e]; simpl; [| nested].
      destruct (in_allowlist _); nested.
  - destruct (exception_matches e (errors_as_nodata self)); nested.
Qed.

Lemma delegate_read_nesting d tid window dt s :
  exists evs,
    trace (snd (delegate_read world d tid window dt s)) = trace s ++ evs
    /\ nesting [] evs = Some [].
Proof.
  destruct d as [nr | st | tl]; simpl.
  - exists []. rewrite app_nil_r. split; reflexivity.
  - unfold st_read. run_monad. simpl.
    destruct (vrt_or_ds (st_ds st) (st_vrt st)); nested.
  - unfold tl_read, tl_dataset, tl_open. run_monad. simpl.
    destruct (thread_attrs (tl_threadlocal tl) tid) as [[ds vrt] |]; simpl.
    + destruct (vrt_or_ds ds vrt); nested.
    + destruct (rio_open world (clock s) (tl_url tl) (Some (tl_driver tl))
                  (tl_open_options tl)) as [info | e]; simpl; [| nested].
      destruct (tl_vrt_params tl) as [params |]; simpl; [| nested].
      destruct (rio_warp world (S (clock s)) info params) as [vi | e]; simpl; nested.
Qed.

(** X14.  Whatever happens during a read (open errors, errors of the
    per-thread reopen, read errors, errors of the post-processing), the
    read leaves every lock released and every GDAL environment scope
    exited, in the reverse order of their entry, and it never tries to
    take a lock it already holds. *)
Theorem read_releases_locks_and_scopes self tid window s :
  exists evs,
    trace (snd (read world self tid window s)) = trace s ++ evs
    /\ nesting [] evs = Some [].
Proof.
  assert (Hafter : forall d self1 s1 evs0,
            trace s1 = trace s ++ evs0 -> nesting [] evs0 = Some [] ->
            dataset world self tid s = (Ok (d, self1), s1) ->
            exists evs,
              trace (snd (read world self tid window s)) = trace s ++ evs
              /\ nesting [] evs = Some []).
  { intros d self1 s1 evs0 Ht Hn Hd.
    destruct (delegate_read_nesting d tid window (dtype self) s1) as [evs1 [Ht1 Hn1]].
    destruct (delegate_read world d tid window (dtype self) s1) as [[r d'] s2] eqn:Hr.
    simpl in Ht1. rewrite Ht in Ht1. rewrite <- app_assoc in Ht1.
    destruct r as [result | e].
    - rewrite (read_delegate_ok world self tid window s d self1 s1 result d' s2 Hd Hr).
      simpl. exists (evs0 ++ evs1). split; [exact Ht1 |].
      rewrite (nesting_app [] [] evs0 evs1 Hn). exact Hn1.
    - rewrite (read_delegate_raises world self tid window s d self1 s1 e d' s2 Hd Hr).
      destruct (exception_matches e (errors_as_nodata self)); simpl.
      + exists (evs0 ++ evs1 ++ [Warn (read_error_msg self window e)]).
        rewrite Ht1, <- !app_assoc. split; [reflexivity |].
        rewrite (nesting_app [] [] evs0 _ Hn).
        rewrite (nesting_app [] [] evs1 _ Hn1). reflexivity.
      + exists (evs0 ++ evs1). split; [exact Ht1 |].
        rewrite (nesting_app [] [] evs0 evs1 Hn). exact Hn1. }
  destruct (_dataset self) as [d |] eqn:E.
  - apply (Hafter d self (log (Release DatasetLock) (log (Acquire DatasetLock) s))
             [Acquire DatasetLock; Release DatasetLock]).
    + normalise_trace. reflexivity.
    + reflexivity.
    + apply dataset_opened. exact E.
  - pose proof (dataset_unopened world self tid s E) as Hd.
    destruct (_open_nesting self tid (log (Acquire DatasetLock) s) [HeldLock DatasetLock])
      as [evs [Ht Hn]].
    destruct (_open world self tid (log (Acquire DatasetLock) s)) as [[d | e] s1] eqn:Hopen;
      simpl in Ht.
    + apply (Hafter d (set_dataset self (Some d)) (log (Release DatasetLock) s1)
               (Acquire DatasetLock :: evs ++ [Release DatasetLock])).
      * simpl. rewrite Ht, <- !app_assoc. reflexivity.
      * simpl. rewrite (nesting_app _ _ evs _ Hn). reflexivity.
      * exact Hd.
    + rewrite (read_open_raises world self tid window s e _ Hd). simpl.
      exists (Acquire DatasetLock :: evs ++ [Release DatasetLock]).
      rewrite Ht, <- !app_assoc. split; [reflexivity |].
      simpl. rewrite (nesting_app _ _ evs _ Hn). reflexivity.
Qed.

Lemma serialised_app (held : bool) (a b : list Event) :
  serialised held a = true -> serialised false b = true -> serialised held (a ++ b) = true.
Proof.
  revert held. induction a as [| ev a IH]; intros held Ha Hb; simpl in *.
  - destruct held; [discriminate | exact Hb].
  - destruct ev as [msg | [|] | [|] | sc | sc | u drv | src | h w | h];
      try (apply IH; assumption);
      apply andb_true_iff in Ha; destruct Ha as [H1 H2];
      apply andb_true_iff; (split; [exact H1 | apply IH; assumption]).
Qed.

(** One read through a lock-serialised delegate. *)
Lemma read_single_threaded self st tid window s :
  _dataset self = Some (SingleThreaded st) ->
  exists r evs,
    read world self tid window s
    = (r, self, {| clock := S (clock s); trace := trace s ++ evs |})
    /\ serialised false evs = true
    /\ Forall (reads_only (handle_id (vrt_or_ds (st_ds st) (st_vrt st)))) evs.
Proof.
  intros Hsome.
  pose proof (dataset_opened world self (SingleThreaded st) tid s Hsome) as Hd.
  destruct (delegate_read world (SingleThreaded st) tid window (dtype self)
              (log (Release DatasetLock) (log (Acquire DatasetLock) s)))
    as [[r d'] s2] eqn:Hr.
  assert (Hs2 : d' = SingleThreaded st
                /\ s2 = {| clock := S (clock s);
                           trace := trace s ++
                             [Acquire DatasetLock; Release DatasetLock;
                              Acquire HandleLock; EnvEnter ScopeRead;
                              NativeRead (handle_id (vrt_or_ds (st_ds st) (st_vrt st)))
                                window;
                              EnvExit ScopeRead; Release HandleLock] |}).
  { revert Hr. simpl. unfold st_read. run_monad. simpl.
    destruct (vrt_or_ds (st_ds st) (st_vrt st)); simpl;
      intros H; injection H as _ <- <-; normalise_trace; split; reflexivity. }
  destruct Hs2 as [-> ->].
  assert (Hall : Forall (reads_only (handle_id (vrt_or_ds (st_ds st) (st_vrt st))))
                   [Acquire DatasetLock; Release DatasetLock;
                    Acquire HandleLock; EnvEnter ScopeRead;
                    NativeRead (handle_id (vrt_or_ds (st_ds st) (st_vrt st))) window;
                    EnvExit ScopeRead; Release HandleLock])
    by (repeat constructor).
  destruct r as [result | e].
  - rewrite (read_delegate_ok world self tid window s _ _ _ result _ _ Hd Hr).
    rewrite (set_dataset_same self _ Hsome).
    do 2 eexists. split; [reflexivity |]. split; [reflexivity | exact Hall].
  - rewrite (read_delegate_raises world self tid window s _ _ _ e _ _ Hd Hr).
    rewrite (set_dataset_same self _ Hsome).
    destruct (exception_matches e (errors_as_nodata self)).
    + do 2 eexists. split; [normalise_trace; reflexivity |].
      split; [reflexivity |]. repeat constructor.
    + do 2 eexists. split; [reflexivity |]. split; [reflexivity | exact Hall].
Qed.

(** X15.  A reader over a lock-serialised delegate leaves the delegate
    and itself untouched by any run of reads: every native read of the
    run goes to the one handle of the delegate (the VRT when there is
    one) and happens while the delegate's lock is held, one native call
    per read, and nothing is opened, warped or closed. *)
Theorem single_handle_reads_are_serialised self st calls s :
  _dataset self = Some (SingleThreaded st) ->
  fst (reads world self calls s) = self
  /\ clock (snd (reads world self calls s)) = clock s + List.length calls
  /\ exists evs,
       trace (snd (reads world self calls s)) = trace s ++ evs
       /\ serialised false evs = true
       /\ Forall (reads_only (handle_id (vrt_or_ds (st_ds st) (st_vrt st)))) evs.
Proof.
  intros Hsome. revert s. induction calls as [| [tid window] calls IH]; intros s.
  - simpl. split; [reflexivity |]. split; [lia |].
    exists []. rewrite app_nil_r. repeat split. constructor.
  - simpl.
    destruct (read_single_threaded self st tid window s Hsome)
      as [r [evs [Hread [Hser Hall]]]].
    rewrite Hread.
    destruct (IH {| clock := S (clock s); trace := trace s ++ evs |})
      as [Hfix [Hclock [evs' [Ht' [Hser' Hall']]]]].
    split; [exact Hfix |]. split; [rewrite Hclock; simpl; lia |].
    exists (evs ++ evs'). rewrite Ht'. simpl. rewrite <- app_assoc.
    split; [reflexivity |]. split; [apply serialised_app; assumption |].
    apply Forall_app. split; assumption.
Qed.

(** X16.  The copy a pool opens for a further thread is warped like the
    first VRT was found to be: exactly when the pool was built with a
    VRT the copy gets one, over its own freshly opened dataset, with the
    CRS in textual form, the size, transforms, resampling, tolerance,
    nodata values, working dtype and extra options read off the first
    VRT, and an alpha band exactly when that VRT has no nodata value.
    No source CRS is passed to it.  The thread that built the pool keeps
    the original dataset and VRT. *)
Theorem pool_copies_follow_the_first_vrt
    env (ds : Dataset num) (vrt : option (Vrt num)) tid0 tid window dt s r tl' s' ds' vrt' :
  tid <> tid0 ->
  tl_read world (ThreadLocalRioDataset_init env ds vrt tid0) tid window dt s = (r, tl', s') ->
  thread_attrs (tl_threadlocal tl') tid = Some (ds', vrt') ->
  thread_attrs (tl_threadlocal tl') tid0 = Some (ds, vrt)
  /\ ds_id ds' = clock s
  /\ match vrt, vrt' with
     | None, None => True
     | Some v, Some v' =>
         let vi := vrt_info v in
         let kw := vrt_kwargs v' in
         vrt_src v' = ds'
         /\ kw_crs kw = inr (vi_crs_string vi)
         /\ kw_transform kw = vi_transform vi
         /\ kw_height kw = vi_height vi /\ kw_width kw = vi_width vi
         /\ kw_resampling kw = vi_resampling vi
         /\ kw_tolerance kw = Some (vi_tolerance vi)
         /\ kw_src_nodata kw = Some (vi_src_nodata vi)
         /\ kw_nodata kw = Some (vi_nodata vi)
         /\ kw_src_transform kw = vi_src_transform vi
         /\ kw_dtype kw = Some (vi_working_dtype vi)
         /\ kw_warp_extras kw = Some (vi_warp_extras vi)
         /\ kw_src_crs kw = None
         /\ (kw_add_alpha kw = true <-> vi_nodata vi = None)
     | _, _ => False
     end.
Proof.
  intros Hneq. unfold tl_read, tl_dataset, tl_open. run_monad.
  cbn [tl_threadlocal ThreadLocalRioDataset_init thread_attrs].
  assert (E : Nat.eqb tid0 tid = false) by (apply Nat.eqb_neq; congruence).
  assert (E' : Nat.eqb tid tid0 = false) by (apply Nat.eqb_neq; congruence).
  rewrite E. simpl.
  destruct (rio_open world (clock s) (ds_name (ds_info ds)) (Some (ds_driver (ds_info ds)))
              (ds_options (ds_info ds))) as [info | e]; simpl.
  - destruct vrt as [v |]; simpl.
    + destruct (rio_warp world (S (clock s)) info (vrt_params_of (vrt_info v)))
        as [vi' | e]; simpl; intros H; injection H as <- <- <-; simpl;
        rewrite ?Nat.eqb_refl, ?E, ?E'; intros Hsome; [| discriminate].
      injection Hsome as <- <-. simpl.
      split; [reflexivity |]. split; [reflexivity |].
      do 13 (split; [reflexivity |]).
      destruct (vi_nodata (vrt_info v)); split; intros H; (reflexivity || discriminate).
    + intros H; injection H as <- <- <-; simpl. rewrite ?Nat.eqb_refl, ?E, ?E'.
      intros Hsome. injection Hsome as <- <-. simpl. repeat split.
  - intros H; injection H as <- <- <-; simpl. rewrite E. discriminate.
Qed.

End DelegateProperties.

(** * The delegates and the life cycle at concrete inputs *)

Lemma pool_read_of_served_thread_witness :
  tl_read (steady_world (scene_info "GTiff" 1) one_band) gtiff_pool 0 (window_of 1 2)
    "int16" fresh_sys
  = (Ok one_band, gtiff_pool,
     {| clock := 1;
        trace := [EnvEnter ScopeRead; Acquire HandleLock; Release HandleLock;
                  NativeRead 0 (window_of 1 2); EnvExit ScopeRead] |}).
Proof.
  rewrite (pool_read_of_served_thread (steady_world (scene_info "GTiff" 1) one_band)
             gtiff_pool 0 (window_of 1 2) "int16" fresh_sys
             {| ds_id := 0; ds_info := scene_info "GTiff" 1 |} None eq_refl).
  reflexivity.
Defined.

Lemma pool_first_read_of_thread_witness :
  let run := tl_read (steady_world (scene_info "GTiff" 1) one_band) gtiff_pool 1
               (window_of 1 2) "int16" fresh_sys in
  thread_attrs (tl_threadlocal (snd (fst run))) 0
  = thread_attrs (tl_threadlocal gtiff_pool) 0
  /\ thread_attrs (tl_threadlocal (snd (fst run))) 1 <> None.
Proof.
  intros run.
  edestruct (pool_first_read_of_thread (steady_world (scene_info "GTiff" 1) one_band)
               gtiff_pool 1 (window_of 1 2) "int16" fresh_sys)
    as [_ [Hother [Hfailed _]]].
  1-2: by_evaluation.
  split.
  - apply (Hother 0). lia.
  - discriminate.
Defined.

Lemma pool_keeps_handles_over_runs_witness :
  let world := steady_world (scene_info "GTiff" 1) one_band in
  let run := tl_reads world gtiff_pool
               [(1, window_of 1 2); (2, window_of 1 1); (1, window_of 2 2)]
               "int16" fresh_sys in
  thread_attrs (tl_threadlocal (fst run)) 0
  = Some ({| ds_id := 0; ds_info := scene_info "GTiff" 1 |}, None)
  /\ pool_opens (trace (snd run)) <= 3.
Proof.
  intros world run.
  destruct (pool_keeps_handles_over_runs world gtiff_pool
              [(1, window_of 1 2); (2, window_of 1 1); (1, window_of 2 2)]
              "int16" fresh_sys 0
              ({| ds_id := 0; ds_info := scene_info "GTiff" 1 |}, None) eq_refl)
    as [Hkeep [Hle _]].
  split; [exact Hkeep | exact Hle].
Defined.

Lemma reopen_failure_is_a_read_failure_witness :
  let self := set_dataset (tolerant_reader 1 0) (Some (ThreadLocal gtiff_pool)) in
  exists s',
    read unreachable_world self 1 (window_of 2 3) fresh_sys
    = (Ok (nodata_for_window (window_of 2 3) 7%Z "int16"), self, s')
    /\ warnings (trace s') = [read_error_msg self (window_of 2 3) not_found].
Proof.
  intros self.
  edestruct (reopen_failure_is_a_read_failure unreachable_world self gtiff_pool 1
               (window_of 2 3) fresh_sys not_found)
    as [s' [Hread [_ Hwarn]]].
  1-3: by_evaluation.
  exists s'. split; [exact Hread | exact Hwarn].
Defined.

Lemma unrecognised_open_error_is_fatal_witness :
  exists s',
    read unreachable_world (strict_reader 1 0) 0 (window_of 2 3) fresh_sys
    = (Raise (RuntimeError (open_error_msg (strict_reader 1 0) not_found) (Some not_found)),
       strict_reader 1 0, s')
    /\ clock s' = 1.
Proof.
  edestruct (unrecognised_open_error_is_fatal unreachable_world (strict_reader 1 0) 0
               (window_of 2 3) fresh_sys not_found)
    as [s' [Hread [_ [_ [Hclock _]]]]].
  1-3: by_evaluation.
  exists s'. split; [exact Hread | exact Hclock].
Defined.

Lemma recognised_open_error_is_remembered_witness :
  let world := recovering_world (scene_info "GTiff" 1) one_band in
  let first := read world (tolerant_reader 1 0) 0 (window_of 3 3) fresh_sys in
  let after := reads world (snd (fst first)) [(0, window_of 3 3); (1, window_of 3 3)]
                 (snd first) in
  clock (snd first) = 1
  /\ fst after = snd (fst first)
  /\ clock (snd after) = 1
  /\ warnings (trace (snd after)) = [open_error_msg (tolerant_reader 1 0) not_found].
Proof.
  intros world first after.
  destruct (recognised_open_error_is_remembered world (tolerant_reader 1 0) 0
              (window_of 3 3) [(0, window_of 3 3); (1, window_of 3 3)] fresh_sys not_found
              eq_refl eq_refl eq_refl)
    as [_ [Hclock [Hwarn [_ [_ [Hfix [Hclock' Hwarn']]]]]]].
  split; [exact Hclock |]. split; [exact Hfix |].
  split; [subst after first; rewrite Hclock'; exact Hclock |].
  subst after first. rewrite Hwarn', Hwarn. reflexivity.
Defined.

Lemma unit_scale_and_zero_offset_are_skipped_witness :
  exists out,
    rescale_and_fill (tolerant_reader 1 0)
      {| shape := [1; 2]; arr_dtype := "int16"; elems := [(5%Z, false); (0%Z, true)] |}
    = Ok out
    /\ nth_error (elems out) 0 = Some (5%Z, false)
    /\ nth_error (elems out) 1 = Some (7%Z, false).
Proof.
  destruct (unit_scale_and_zero_offset_are_skipped (tolerant_reader 1 0)
              {| shape := [1; 2]; arr_dtype := "int16";
                 elems := [(5%Z, false); (0%Z, true)] |} 1%Z 0%Z
              (fun v => v) (fun v => v) 7%Z)
    as [out [Hout [_ [_ [Hvalid Hmasked]]]]].
  1-2: reflexivity.
  1-2: simpl; discriminate.
  1: reflexivity.
  exists out. split; [exact Hout |]. split.
  - apply (Hvalid 0 5%Z). reflexivity.
  - apply (Hmasked 1 0%Z). reflexivity.
Defined.

Lemma dtype_mismatch_is_an_assertion_error_witness :
  exists msg self' s',
    read (steady_world (scene_info "HDF5" 1) one_band_int32) (tolerant_reader 2 1) 0
      (window_of 1 2) fresh_sys
    = (Raise (AssertionError msg), self', s')
    /\ In (ReprDtype "int16") msg
    /\ In (ReprDtype "int32") msg.
Proof.
  edestruct (dtype_mismatch_is_an_assertion_error
               (steady_world (scene_info "HDF5" 1) one_band_int32) (tolerant_reader 2 1) 0
               (window_of 1 2) fresh_sys)
    as [msg [Hread [Hwant Hgot]]].
  1-3: by_evaluation.
  - simpl. discriminate.
  - reflexivity.
  - intros _. reflexivity.
  - intros _. reflexivity.
  - reflexivity.
  - exists msg. do 2 eexists. split; [exact Hread |]. split; [exact Hwant | exact Hgot].
Defined.

Lemma read_returns_dense_arrays_of_the_dtype_witness :
  exists out self' s',
    read (steady_world (scene_info "GTiff" 1) one_band) (tolerant_reader 2 1) 0
      (window_of 1 2) fresh_sys = (Ok out, self', s')
    /\ arr_dtype out = "int16"
    /\ Forall (fun x => snd x = false) (elems out).
Proof.
  do 3 eexists.
  assert (Hread : read (steady_world (scene_info "GTiff" 1) one_band) (tolerant_reader 2 1)
                    0 (window_of 1 2) fresh_sys = (Ok _, _, _)) by (lazy; reflexivity).
  split; [exact Hread |].
  exact (read_returns_dense_arrays_of_the_dtype _ _ _ _ _ _ _ _ Hread).
Defined.

Lemma vrt_is_built_only_when_geometry_differs_witness :
  let world := warping_world larger_scene vrt_4x4 one_band in
  exists d s' v,
    _open world (tolerant_reader 1 0) 0 fresh_sys = (Ok d, s')
    /\ delegate_vrt d 0 = Some v
    /\ kw_add_alpha (vrt_kwargs v) = true
    /\ kw_height (vrt_kwargs v) = 4.
Proof.
  intros world.
  edestruct (vrt_is_built_only_when_geometry_differs world (tolerant_reader 1 0) 0
               fresh_sys larger_scene)
    as [evs [_ [_ [Hdiffers [_ [_ [Hheight [_ [_ [Halpha _]]]]]]]]]].
  1-3: by_evaluation.
  destruct (Hdiffers eq_refl) as [_ [v [Hvrt [_ Hkw]]]].
  do 2 eexists. exists v. split; [reflexivity |]. split; [exact Hvrt |].
  rewrite Hkw. split; [apply Halpha; reflexivity | exact Hheight].
Defined.

Lemma single_handle_reads_are_serialised_witness :
  let world := flaky_world (scene_info "HDF5" 1) one_band in
  let self := set_dataset (tolerant_reader 1 0) (Some (SingleThreaded hdf5_delegate)) in
  let run := reads world self [(0, window_of 1 2); (1, window_of 1 2); (2, window_of 1 1)]
               fresh_sys in
  fst run = self /\ clock (snd run) = 3.
Proof.
  intros world self run.
  destruct (single_handle_reads_are_serialised world self hdf5_delegate
              [(0, window_of 1 2); (1, window_of 1 2); (2, window_of 1 1)] fresh_sys eq_refl)
    as [Hfix [Hclock _]].
  split; [exact Hfix | exact Hclock].
Defined.

Lemma pool_copies_follow_the_first_vrt_witness :
  let world := warping_world larger_scene vrt_4x4 one_band in
  let pool := ThreadLocalRioDataset_init DEFAULT_GDAL_ENV
                {| ds_id := 0; ds_info := larger_scene |} (Some first_vrt) 0 in
  let after := snd (fst (tl_read world pool 1 (window_of 1 2) "int16"
                           {| clock := 2; trace := [] |})) in
  exists ds' v',
    thread_attrs (tl_threadlocal after) 1 = Some (ds', Some v')
    /\ thread_attrs (tl_threadlocal after) 0
       = Some ({| ds_id := 0; ds_info := larger_scene |}, Some first_vrt)
    /\ kw_crs (vrt_kwargs v') = inr "EPSG:4326"
    /\ kw_src_crs (vrt_kwargs v') = None.
Proof.
  intros world pool after.
  do 2 eexists.
  assert (Hattrs : thread_attrs (tl_threadlocal after) 1 = Some (_, Some _))
    by (lazy; reflexivity).
  split; [exact Hattrs |].
  edestruct (pool_copies_follow_the_first_vrt world DEFAULT_GDAL_ENV
               {| ds_id := 0; ds_info := larger_scene |} (Some first_vrt) 0 1
               (window_of 1 2) "int16" {| clock := 2; trace := [] |})
    as [Hfirst [_ Hkw]].
  1: lia.
  1: lazy; reflexivity.
  1: exact Hattrs.
  simpl in Hkw. destruct Hkw as [_ [Hcrs [_ [_ [_ [_ [_ [_ [_ [_ [_ [_ [Hsrc _]]]]]]]]]]]]].
  split; [exact Hfirst |]. split; [exact Hcrs | exact Hsrc].
Defined.

(** * Rasters of a signed integer dtype *)

Lemma wrap_fits (bits z : Z) : (0 < bits)%Z -> fits bits z = true -> wrap bits z = z.
Proof.
  intros Hb Hf. unfold fits in Hf. apply andb_prop in Hf. destruct Hf as [Hlo Hhi].
  apply Z.leb_le in Hlo. apply Z.ltb_lt in Hhi. unfold wrap.
  assert (H2 : (2 ^ bits = 2 * 2 ^ (bits - 1))%Z).
  { replace bits with (Z.succ (bits - 1)) at 1 by lia. apply Z.pow_succ_r. lia. }
  assert (Hpos : (0 < 2 ^ (bits - 1))%Z) by (apply Z.pow_pos_nonneg; lia).
  rewrite Z.mod_small by lia. lia.
Qed.

Lemma signed_bits_range (dt : np_dtype) (bits : Z) :
  signed_bits dt = Some bits -> (0 < bits <= 64)%Z.
Proof.
  unfold signed_bits.
  repeat match goal with
         | |- context [if String.eqb ?a ?b then _ else _] => destruct (String.eqb a b)
         end; intros H; inversion H; lia.
Qed.

Lemma fits_int64 (bits z : Z) : (0 < bits <= 64)%Z -> fits bits z = true -> fits 64 z = true.
Proof.
  intros Hb Hf. unfold fits in *. apply andb_prop in Hf. destruct Hf as [Hlo Hhi].
  apply Z.leb_le in Hlo. apply Z.ltb_lt in Hhi.
  assert (Hle : (2 ^ (bits - 1) <= 2 ^ (64 - 1))%Z) by (apply Z.pow_le_mono_r; lia).
  apply andb_true_intro. split; [apply Z.leb_le | apply Z.ltb_lt]; lia.
Qed.

(** X17.  On a raster of a signed integer dtype, with an integer scale,
    offset and fill value that fit the dtype, a read whose delegate
    returns an array of that dtype returns, at a valid position, the
    value scaled and offset with wrap-around after each of the two
    steps that is taken.  The result is exactly [v * scale + offset]
    whenever [v * scale] and [v * scale + offset] fit the dtype.  A
    masked position holds the fill value. *)
Theorem signed_integer_rescaling_is_exact_in_range
    (world : World Z) (self : AutoParallelRioReader Z) tid window s d self1 s1
    result d' s2 band (scale offset bits : Z) :
  dataset world self tid s = (Ok (d, self1), s1) ->
  delegate_read world d tid window (dtype self) s1 = (Ok result, d', s2) ->
  select_band result = Ok band ->
  arr_dtype result = dtype self ->
  scale_offset self = (scale, offset) ->
  signed_bits (dtype self) = Some bits ->
  fits bits scale = true ->
  fits bits offset = true ->
  fits bits (fill_value self) = true ->
  let rescaled v :=
    let v1 := if Z.eqb scale 1 then v else wrap bits (v * scale) in
    if Z.eqb offset 0 then v1 else wrap bits (v1 + offset) in
  exists out,
    read world self tid window s = (Ok out, set_dataset self (Some d'), s2)
    /\ shape out = shape band
    /\ (forall i v, nth_error (elems band) i = Some (v, false) ->
          nth_error (elems out) i = Some (rescaled v, false))
    /\ (forall i v, nth_error (elems band) i = Some (v, false) ->
          fits bits (v * scale) = true ->
          fits bits (v * scale + offset) = true ->
          nth_error (elems out) i = Some ((v * scale + offset)%Z, false))
    /\ (forall i v, nth_error (elems band) i = Some (v, true) ->
          nth_error (elems out) i = Some (fill_value self, false)).
Proof.
  intros Hd Hr Hb Hdt Hso Hbits Hs Ho Hf rescaled.
  pose proof (signed_bits_range _ _ Hbits) as Hrange.
  assert (Hbd : arr_dtype band = dtype self)
    by (rewrite (select_band_dtype result band Hb); exact Hdt).
  rewrite (read_delegate_ok world self tid window s d self1 s1 result d' s2 Hd Hr).
  unfold postprocess. rewrite Hb.
  rewrite (rescale_and_fill_elements self band scale offset
             (fun v => wrap bits (v * scale)) (fun v => wrap bits (v + offset))
             (fill_value self) Hso).
  2: { intros _. rewrite Hbd. simpl. unfold int_inplace.
       rewrite Hbits, (fits_int64 bits scale Hrange Hs). reflexivity. }
  2: { intros _. rewrite Hbd. simpl. unfold int_inplace.
       rewrite Hbits, (fits_int64 bits offset Hrange Ho). reflexivity. }
  2: { rewrite Hbd. simpl. unfold int_fill. rewrite Hbits, Hf. reflexivity. }
  unfold issubdtype. rewrite Hbd, String.eqb_refl.
  eexists. split; [reflexivity |]. simpl. split; [reflexivity |].
  assert (Hvalid : forall i v, nth_error (elems band) i = Some (v, false) ->
            nth_error
              (map (fun '(v, m) =>
                      (if (m : bool) then fill_value self
                       else if Z.eqb offset 0
                            then if Z.eqb scale 1 then v else wrap bits (v * scale)
                            else wrap bits ((if Z.eqb scale 1 then v
                                             else wrap bits (v * scale)) + offset),
                       false)) (elems band)) i
            = Some (rescaled v, false)).
  { intros i v Hi. rewrite nth_error_map, Hi. reflexivity. }
  split; [exact Hvalid |]. split.
  - intros i v Hi Hprod Hsum. rewrite (Hvalid i v Hi). subst rescaled. cbv beta zeta.
    f_equal. f_equal.
    destruct (Z.eqb scale 1) eqn:Es; destruct (Z.eqb offset 0) eqn:Eo;
      try (apply Z.eqb_eq in Es; subst scale);
      try (apply Z.eqb_eq in Eo; subst offset);
      rewrite ?Z.mul_1_r, ?Z.add_0_r in *;
      rewrite ?(wrap_fits bits _ (proj1 Hrange) Hprod);
      rewrite ?(wrap_fits bits _ (proj1 Hrange) Hsum); reflexivity.
  - intros i v Hi. rewrite nth_error_map, Hi. reflexivity.
Qed.

Lemma signed_integer_rescaling_is_exact_in_range_witness :
  exists out self' s',
    read (steady_world (scene_info "GTiff" 1) bright_band) (tolerant_reader 1 100) 0
      (window_of 1 2) fresh_sys = (Ok out, self', s')
    /\ nth_error (elems out) 0 = Some (20100%Z, false)
    /\ nth_error (elems out) 1 = Some (7%Z, false).
Proof.
  edestruct (signed_integer_rescaling_is_exact_in_range
               (steady_world (scene_info "GTiff" 1) bright_band) (tolerant_reader 1 100) 0
               (window_of 1 2) fresh_sys)
    as [out [Hread [_ [_ [Hexact Hmasked]]]]].
  1-9: by_evaluation.
  exists out. do 2 eexists. split; [exact Hread |]. split.
  - apply (Hexact 0 20000%Z); reflexivity.
  - apply (Hmasked 1 0%Z). reflexivity.
Defined.
